(** * The MCP tool handlers of [packages/mcp]: arithmetic and post tools

    A shallow embedding of [createMcpHandler] (the eight [server.registerTool]
    calls of [packages/mcp/src/index.ts] and of its post-management sibling),
    together with the parts of the JavaScript runtime the handlers rely on:
    IEEE-754 numbers, [JSON.stringify(value, null, 2)], [String(value)],
    exceptions and [try]/[catch], the zod schemas and the database client. *)

From Stdlib Require Import ZArith Floats Ascii String.
From stdpp Require Import gmap strings list sorting.

Set Warnings "-register-all".
Local Open Scope Z_scope.

(** ** JavaScript numbers, strings and values *)

Module Js.

(** A JavaScript value, as far as tool arguments and JSON payloads go.
    Object properties keep their insertion order. *)
Inductive value : Type :=
| VUndefined
| VNull
| VBool (b : bool)
| VNum (x : float)
| VStr (s : string)
| VArr (items : list value)
| VObj (props : list (string * value)).

(** What a [throw] carries: an [Error] instance with its [message], or any
    other value. *)
Inductive thrown : Type :=
| ThrowError (message : string)
| ThrowValue (v : value).

(** *** [Number::toString]: the shortest decimal that reads back as [x] *)

Definition digit_char (d : Z) : ascii := ascii_of_nat (48 + Z.to_nat d).

Fixpoint decimal_loop (fuel : nat) (n : Z) (acc : string) : string :=
  match fuel with
  | O => acc
  | S fuel' =>
      let acc' := String (digit_char (n mod 10)) acc in
      if n <? 10 then acc' else decimal_loop fuel' (n / 10) acc'
  end.

(** Decimal digits of a non-negative integer. *)
Definition decimal (n : Z) : string :=
  decimal_loop (S (Z.to_nat (Z.log2 n))) n EmptyString.

Fixpoint zeros (n : nat) : string :=
  match n with O => EmptyString | S n' => String "0" (zeros n') end.

Section Shortest.
(** The positive number [x = m * 2^e] and its decimal candidates
    [s * 10^q]; comparisons are exact, in units of a quarter ulp. *)
Variables (m e : Z).

Definition lowgap : Z := if (m =? 2 ^ 52) && (-1074 <? e) then 1 else 2.

Definition scaled (s q : Z) : Z * Z :=
  (4 * s * 10 ^ Z.max q 0 * 2 ^ Z.max (- e) 0,
   10 ^ Z.max (- q) 0 * 2 ^ Z.max e 0).

(** [s * 10^q] rounds to [x]. *)
Definition inside (s q : Z) : bool :=
  let '(num, den) := scaled s q in
  let lo := (4 * m - lowgap) * den in
  let hi := (4 * m + 2) * den in
  if Z.even m then (lo <=? num) && (num <=? hi)
  else (lo <? num) && (num <? hi).

Definition distance (s q : Z) : Z :=
  let '(num, den) := scaled s q in Z.abs (num - 4 * m * den).

Definition floor_div10 (q : Z) : Z :=
  (m * 2 ^ Z.max e 0 * 10 ^ Z.max (- q) 0)
  / (2 ^ Z.max (- e) 0 * 10 ^ Z.max q 0).

(** [x < 10^n] *)
Definition below_pow10 (n : Z) : bool :=
  m * 2 ^ Z.max e 0 * 10 ^ Z.max (- n) 0
  <? 10 ^ Z.max n 0 * 2 ^ Z.max (- e) 0.

Fixpoint up (fuel : nat) (n : Z) : Z :=
  match fuel with
  | O => n
  | S f => if below_pow10 n then n else up f (n + 1)
  end.

Fixpoint down (fuel : nat) (n : Z) : Z :=
  match fuel with
  | O => n
  | S f => if below_pow10 (n - 1) then down f (n - 1) else n
  end.

(** The [n] with [10^(n-1) <= x < 10^n]. *)
Definition magnitude : Z :=
  down 4 (up 4 (((e + Z.log2 m) * 1233) / 4096)).

(** The digits [s], their count [k] and the exponent [n] of
    [Number::toString]: [k] as small as possible, [s] closest to [x]. *)
Fixpoint search (fuel : nat) (k : Z) : Z * Z * Z :=
  let n := magnitude in
  let q := n - k in
  let lo := floor_div10 q in
  let hi := lo + 1 in
  let pick s := if s =? 10 ^ k then (10 ^ (k - 1), k, n + 1) else (s, k, n) in
  match fuel with
  | O => pick lo
  | S f =>
      match inside lo q, inside hi q with
      | true, true =>
          let dl := distance lo q in
          let dh := distance hi q in
          if dl <? dh then pick lo
          else if dh <? dl then pick hi
          else if Z.even lo then pick lo else pick hi
      | true, false => pick lo
      | false, true => pick hi
      | false, false => search f (k + 1)
      end
  end.
End Shortest.

Definition format_digits (s k n : Z) : string :=
  let ds := decimal s in
  if (k <=? n) && (n <=? 21) then ds +:+ zeros (Z.to_nat (n - k))
  else if (0 <? n) && (n <=? 21) then
    substring 0 (Z.to_nat n) ds +:+ "." +:+
    substring (Z.to_nat n) (Z.to_nat (k - n)) ds
  else if (-6 <? n) && (n <=? 0) then
    "0." +:+ zeros (Z.to_nat (- n)) +:+ ds
  else
    let ex := n - 1 in
    let mant :=
      if k =? 1 then ds
      else substring 0 1 ds +:+ "." +:+ substring 1 (Z.to_nat (k - 1)) ds in
    mant +:+ "e" +:+ (if ex <? 0 then "-" else "+") +:+ decimal (Z.abs ex).

Definition Number_toString (x : float) : string :=
  match Prim2SF x with
  | S754_nan => "NaN"
  | S754_zero _ => "0"
  | S754_infinity s => if s then "-Infinity" else "Infinity"
  | S754_finite s m e =>
      let '(d, k, n) := search (Z.pos m) e 17 1 in
      (if s then "-" else "") +:+ format_digits d k n
  end.

(** [Number.isInteger] *)
Definition Number_isInteger (x : float) : bool :=
  match Prim2SF x with
  | S754_zero _ => true
  | S754_finite _ m e => (0 <=? e) || (Z.pos m mod 2 ^ (- e) =? 0)
  | _ => false
  end.

(** The integer part of a number (0 for NaN and the infinities). *)
Definition truncate (x : float) : Z :=
  match Prim2SF x with
  | S754_finite s m e =>
      let a := if 0 <=? e then Z.pos m * 2 ^ e else Z.pos m / 2 ^ (- e) in
      if s then - a else a
  | _ => 0
  end.

(** *** [Date.prototype.toISOString] on a time value in milliseconds *)

Definition pad (width : nat) (n : Z) : string :=
  let ds := decimal n in
  zeros (width - String.length ds) +:+ ds.

(** Civil date of a day number counted from 1970-01-01. *)
Definition civil_from_days (days : Z) : Z * Z * Z :=
  let z := days + 719468 in
  let era := z / 146097 in
  let doe := z - era * 146097 in
  let yoe := (doe - doe / 1460 + doe / 36524 - doe / 146096) / 365 in
  let doy := doe - (365 * yoe + yoe / 4 - yoe / 100) in
  let mp := (5 * doy + 2) / 153 in
  let d := doy - (153 * mp + 2) / 5 + 1 in
  let mo := if mp <? 10 then mp + 3 else mp - 9 in
  let y := yoe + era * 400 + (if mo <=? 2 then 1 else 0) in
  (y, mo, d).

Definition toISOString (t : Z) : string :=
  let '(y, mo, d) := civil_from_days (t / 86400000) in
  let ms := t mod 86400000 in
  let year :=
    if (0 <=? y) && (y <=? 9999) then pad 4 y
    else (if y <? 0 then "-" else "+") +:+ pad 6 (Z.abs y) in
  year +:+ "-" +:+ pad 2 mo +:+ "-" +:+ pad 2 d +:+ "T" +:+
  pad 2 (ms / 3600000) +:+ ":" +:+ pad 2 (ms / 60000 mod 60) +:+ ":" +:+
  pad 2 (ms / 1000 mod 60) +:+ "." +:+ pad 3 (ms mod 1000) +:+ "Z".

(** *** [JSON.stringify(value, null, 2)] *)

(** The double quote, code unit 34. *)
Definition dquote : ascii := Eval compute in ascii_of_nat 34.

Definition hex_char (d : nat) : ascii :=
  ascii_of_nat (if (d <? 10)%nat then 48 + d else 87 + d).

(** [QuoteJSONString], one code unit at a time. *)
Definition escape_char (c : ascii) : string :=
  let n := nat_of_ascii c in
  if (n =? 34)%nat then String "\" (String dquote "")
  else if (n =? 92)%nat then "\\"
  else if (n =? 8)%nat then "\b"
  else if (n =? 12)%nat then "\f"
  else if (n =? 10)%nat then "\n"
  else if (n =? 13)%nat then "\r"
  else if (n =? 9)%nat then "\t"
  else if (n <? 32)%nat then
    "\u00" +:+ String (hex_char (n / 16)) (String (hex_char (n mod 16)) "")
  else String c "".

Fixpoint escape (s : string) : string :=
  match s with
  | EmptyString => ""
  | String c s' => escape_char c +:+ escape s'
  end.

Definition quote (s : string) : string :=
  String dquote (escape s +:+ String dquote "").

Definition newline : string := String (ascii_of_nat 10) "".

Fixpoint join (sep : string) (parts : list string) : string :=
  match parts with
  | [] => ""
  | [p] => p
  | p :: rest => p +:+ sep +:+ join sep rest
  end.

(** The number as JSON writes it: non-finite numbers become [null]. *)
Definition json_number (x : float) : string :=
  if is_finite x then Number_toString x else "null".

Definition bracket (opening closing ind : string) (parts : list string) : string :=
  match parts with
  | [] => opening +:+ closing
  | _ =>
      let stepback := ind in
      let ind' := ind +:+ "  " in
      opening +:+ newline +:+ ind' +:+
      join ("," +:+ newline +:+ ind') parts +:+
      newline +:+ stepback +:+ closing
  end.

(** [SerializeJSONProperty] with a gap of two spaces; [None] stands for
    [undefined], which objects leave out and arrays write as [null]. *)
Fixpoint serialize (ind : string) (v : value) : option string :=
  match v with
  | VUndefined => None
  | VNull => Some "null"
  | VBool b => Some (if b then "true" else "false")
  | VNum x => Some (json_number x)
  | VStr s => Some (quote s)
  | VArr items =>
      Some (bracket "[" "]" ind
              (map (fun item => default "null" (serialize (ind +:+ "  ") item))
                   items))
  | VObj props =>
      Some (bracket "{" "}" ind
              (omap (fun '(k, item) =>
                       (fun s => quote k +:+ ": " +:+ s)
                         <$> serialize (ind +:+ "  ") item)
                    props))
  end.

(** The text [JSON.stringify(v, null, 2)] evaluates to. The handlers only
    ever pass object literals, for which the result is a string. *)
Definition JSON_stringify (v : value) : string :=
  default "" (serialize "" v).

(** [String(v)] *)
Fixpoint String_ (v : value) : string :=
  match v with
  | VUndefined => "undefined"
  | VNull => "null"
  | VBool b => if b then "true" else "false"
  | VNum x => Number_toString x
  | VStr s => s
  | VArr items =>
      join "," (map (fun item =>
                       match item with
                       | VUndefined | VNull => ""
                       | _ => String_ item
                       end) items)
  | VObj _ => "[object Object]"
  end.

(** [String.prototype.startsWith] and [String.prototype.includes] *)
Fixpoint startsWith (t p : string) : bool :=
  match p, t with
  | EmptyString, _ => true
  | String a p', String b t' => Ascii.eqb a b && startsWith t' p'
  | String _ _, EmptyString => false
  end.

Fixpoint includes (t p : string) : bool :=
  startsWith t p ||
  match t with
  | EmptyString => false
  | String _ t' => includes t' p
  end.

(** A JSON document: no [undefined] and no non-finite number anywhere. *)
Fixpoint is_json (v : value) : bool :=
  match v with
  | VUndefined => false
  | VNull | VBool _ | VStr _ => true
  | VNum x => is_finite x
  | VArr items => forallb is_json items
  | VObj props => forallb (fun p => is_json p.2) props
  end.

(** The JSON value a number is written as. *)
Definition json_of_number (x : float) : value :=
  if is_finite x then VNum x else VNull.

(** The text is the serialization of the JSON document [doc], which is
    what [JSON.parse] gives back for it (numbers up to [===], under which
    [0] and [-0] are one number). *)
Definition decodes_to (text : string) (doc : value) : bool :=
  is_json doc && String.eqb text (JSON_stringify doc).

End Js.

(** ** zod schemas

    The schemas the tools declare, as parsers from a raw value to the typed
    argument (zod 3: [z.number()] refuses [NaN] and accepts the infinities).
    A schema written [z.number().int().min(1)] reads
    [z_number |> int |> min 1] here. *)

Module Zod.
Import Js.

Inductive issue_code : Type :=
| invalid_type
| too_small
| too_big
| invalid_string.

(** The first issue of a failed parse: the argument and what it violates. *)
Record issue : Type := { path : string; code : issue_code }.

Definition schema (A : Type) : Type := value → issue_code + A.

Definition refine {A} (check : A → option issue_code) (t : schema A) : schema A :=
  fun v =>
    match t v with
    | inl c => inl c
    | inr a => match check a with Some c => inl c | None => inr a end
    end.

Definition z_number : schema float :=
  fun v =>
    match v with
    | VNum x => if is_nan x then inl invalid_type else inr x
    | _ => inl invalid_type
    end.

Definition int : schema float → schema float :=
  refine (fun x => if Number_isInteger x then None else Some invalid_type).

Definition min (bound : float) : schema float → schema float :=
  refine (fun x => if (x <? bound)%float then Some too_small else None).

Definition max (bound : float) : schema float → schema float :=
  refine (fun x => if (bound <? x)%float then Some too_big else None).

Definition z_string : schema string :=
  fun v => match v with VStr s => inr s | _ => inl invalid_type end.

Definition string_min (bound : nat) : schema string → schema string :=
  refine (fun s => if (String.length s <? bound)%nat then Some too_small else None).

Definition string_max (bound : nat) : schema string → schema string :=
  refine (fun s => if (bound <? String.length s)%nat then Some too_big else None).

Definition is_hex (c : ascii) : bool :=
  let n := nat_of_ascii c in
  ((48 <=? n) && (n <=? 57) || (65 <=? n) && (n <=? 70)
   || (97 <=? n) && (n <=? 102))%nat.

Fixpoint hexes (n : nat) (s : string) : option string :=
  match n, s with
  | O, _ => Some s
  | S n', String c s' => if is_hex c then hexes n' s' else None
  | S _, EmptyString => None
  end.

Definition dash (s : string) : option string :=
  match s with
  | String c s' => if Ascii.eqb c "-" then Some s' else None
  | EmptyString => None
  end.

(** Groups of hexadecimal digits separated by dashes, up to the end. *)
Fixpoint hex_groups (sizes : list nat) (s : string) : bool :=
  match sizes with
  | [] => false
  | [n] => match hexes n s with Some EmptyString => true | _ => false end
  | n :: sizes' =>
      match hexes n s with
      | Some rest =>
          match dash rest with
          | Some rest' => hex_groups sizes' rest'
          | None => false
          end
      | None => false
      end
  end.

(** zod's [uuidRegex]: 8-4-4-4-12 hexadecimal digits. *)
Definition is_uuid (s : string) : bool := hex_groups [8; 4; 4; 4; 12]%nat s.

Definition uuid : schema string → schema string :=
  refine (fun s => if is_uuid s then None else Some invalid_string).

Definition optional {A} (t : schema A) : schema (option A) :=
  fun v =>
    match v with
    | VUndefined => inr None
    | _ => match t v with inl c => inl c | inr a => inr (Some a) end
    end.

(** [.default(d)]: a missing argument parses to [d]. *)
Definition default {A} (d : A) (t : schema (option A)) : schema A :=
  fun v =>
    match v with
    | VUndefined => inr d
    | _ =>
        match t v with
        | inl c => inl c
        | inr (Some a) => inr a
        | inr None => inr d
        end
    end.

(** One key of the raw shape, parsed from the argument set. *)
Definition field {A} (key : string) (t : schema A)
    (raw : gmap string value) : issue + A :=
  match t (option.default VUndefined (raw !! key)) with
  | inl c => inl {| path := key; code := c |}
  | inr a => inr a
  end.

Definition and_then {A B} (r : issue + A) (k : A → issue + B) : issue + B :=
  match r with inl i => inl i | inr a => k a end.

End Zod.

Notation "x |> f" := (f x) (at level 45, left associativity, only parsing).

(** ** The database client *)

Module Post.
(** Modelled from the spec: the row type of the Post table, whose schema
    ([@acme/db/schema]) is not among the sources. A record has an
    identifier, a title, a content and a creation time (the time value of
    its [Date], in milliseconds). *)
Record t : Type := { id : string; title : string; content : string; createdAt : Z }.
End Post.

(** The client [db] of [@acme/db/client] as the handlers use it. The store
    assigns the identifier and the creation time on insert, the identifier
    is the primary key, every query is one call into the store, and a call
    can fail. *)

Module Db.
Import Js.

Inductive query : Type :=
| FindMany (limit : float)
| FindFirst (id : string)
| Insert (title content : string)
| Delete (id : string).

(** The table, the log of the calls made so far, and the environment of
    the call number [n]: whether it fails, and the identifier and the time
    the store would assign. *)
Record store : Type := {
  rows : list Post.t;
  calls : list query;
  outage : nat → option thrown;
  gen_random_uuid : nat → string;
  now : nat → Z;
}.

Definition with_rows (st : store) (rs : list Post.t) : store :=
  {| rows := rs; calls := calls st; outage := outage st;
     gen_random_uuid := gen_random_uuid st; now := now st |}.

Definition logged (st : store) (q : query) : store :=
  {| rows := rows st; calls := calls st ++ [q]; outage := outage st;
     gen_random_uuid := gen_random_uuid st; now := now st |}.

(** An awaited computation: it settles, and the store moves on. *)
Inductive settled (A : Type) : Type :=
| Fulfilled (a : A)
| Rejected (e : thrown).
Arguments Fulfilled {A} a.
Arguments Rejected {A} e.

Definition Promise (A : Type) : Type := store → settled A * store.

Definition resolve {A} (a : A) : Promise A := fun st => (Fulfilled a, st).

Definition await {A B} (p : Promise A) (k : A → Promise B) : Promise B :=
  fun st =>
    match p st with
    | (Fulfilled a, st') => k a st'
    | (Rejected e, st') => (Rejected e, st')
    end.

Definition try_catch {A} (body : Promise A) (handler : thrown → Promise A) : Promise A :=
  fun st =>
    match body st with
    | (Fulfilled a, st') => (Fulfilled a, st')
    | (Rejected e, st') => handler e st'
    end.

(** One call into the store: logged, then failed by the environment or
    answered from the table. *)
Definition call {A} (q : query) (answer : nat → store → settled A * store) : Promise A :=
  fun st =>
    let n := length (calls st) in
    let st' := logged st q in
    match outage st n with
    | Some e => (Rejected e, st')
    | None => answer n st'
    end.

Definition has_id (id : string) (p : Post.t) : bool := String.eqb (Post.id p) id.

(** [desc(Post.id)]: the row with the greater identifier comes first.
    Identifiers are UUIDs in their canonical lower-case text, on which the
    order of the column is the order of the text. *)
Definition desc_id (p q : Post.t) : Prop := String.leb (Post.id q) (Post.id p).

#[export] Instance desc_id_dec : RelDecision desc_id.
Proof. intros p q. unfold desc_id. apply _. Defined.

(** [db.query.Post.findMany({ orderBy: desc(Post.id), limit })] *)
Definition findMany_desc_id (limit : float) : Promise (list Post.t) :=
  call (FindMany limit)
       (fun _ st =>
          (Fulfilled (take (Z.to_nat (truncate limit)) (merge_sort desc_id (rows st))), st)).

(** [db.query.Post.findFirst({ where: eq(Post.id, id) })] *)
Definition findFirst_eq_id (id : string) : Promise (option Post.t) :=
  call (FindFirst id) (fun _ st => (Fulfilled (find (has_id id) (rows st)), st)).

Definition unique_violation : thrown :=
  ThrowError "duplicate key value violates unique constraint".

(** [db.insert(Post).values({ title, content }).returning()] *)
Definition insert_returning (title content : string) : Promise (list Post.t) :=
  call (Insert title content)
       (fun n st =>
          let row := {| Post.id := gen_random_uuid st n; Post.title := title;
                        Post.content := content; Post.createdAt := now st n |} in
          if existsb (has_id (Post.id row)) (rows st)
          then (Rejected unique_violation, st)
          else (Fulfilled [row], with_rows st (rows st ++ [row]))).

(** [db.delete(Post).where(eq(Post.id, id))] *)
Definition delete_where_eq_id (id : string) : Promise unit :=
  call (Delete id)
       (fun _ st =>
          (Fulfilled tt, with_rows st (filter (fun p => negb (has_id id p)) (rows st)))).

End Db.

(** ** The tool handlers *)

Module Mcp.
Import Js Db.

#[export] Instance promise_ret : MRet Promise := @resolve.
#[export] Instance promise_bind : MBind Promise := fun A B k p => await p k.

Record ContentBlock : Type := { type : string; text : string }.

(** What a handler returns; a success leaves [isError] out. *)
Record ToolResult : Type := { content : list ContentBlock; isError : option bool }.

(** [error instanceof Error ? error.message : String(error)] *)
Definition errorMessage_of (error : thrown) : string :=
  match error with
  | ThrowError message => message
  | ThrowValue v => String_ v
  end.

(** The text of the first content block, the payload of a result. *)
Definition payload (r : ToolResult) : string :=
  match content r with
  | block :: _ => text block
  | [] => ""
  end.

(** *** Arithmetic tools ([packages/mcp/src/index.ts]) *)

Definition add (a b : float) : ToolResult :=
  let result := (a + b)%float in
  {| content :=
       [ {| type := "text";
            text := JSON_stringify
                      (VObj [("success", VBool true);
                             ("result", VNum result);
                             ("operation", VStr "add");
                             ("operands", VObj [("a", VNum a); ("b", VNum b)])]) |} ];
     isError := None |}.

Definition subtract (a b : float) : ToolResult :=
  let result := (a - b)%float in
  {| content :=
       [ {| type := "text";
            text := JSON_stringify
                      (VObj [("success", VBool true);
                             ("result", VNum result);
                             ("operation", VStr "subtract");
                             ("operands", VObj [("a", VNum a); ("b", VNum b)])]) |} ];
     isError := None |}.

Definition multiply (a b : float) : ToolResult :=
  let result := (a * b)%float in
  {| content :=
       [ {| type := "text";
            text := JSON_stringify
                      (VObj [("success", VBool true);
                             ("result", VNum result);
                             ("operation", VStr "multiply");
                             ("operands", VObj [("a", VNum a); ("b", VNum b)])]) |} ];
     isError := None |}.

Definition divide (a b : float) : ToolResult :=
  if (b =? 0)%float then
    {| content :=
         [ {| type := "text";
              text := JSON_stringify
                        (VObj [("success", VBool false);
                               ("error", VStr "Division by zero is not allowed")]) |} ];
       isError := Some true |}
  else
    let result := (a / b)%float in
    {| content :=
         [ {| type := "text";
              text := JSON_stringify
                        (VObj [("success", VBool true);
                               ("result", VNum result);
                               ("operation", VStr "divide");
                               ("operands", VObj [("a", VNum a); ("b", VNum b)])]) |} ];
       isError := None |}.

(** *** Post tools *)

(** A row as [JSON.stringify] sees it: the creation [Date] goes through
    [toJSON], that is [toISOString]. *)
Definition post_value (p : Post.t) : value :=
  VObj [("id", VStr (Post.id p));
        ("title", VStr (Post.title p));
        ("content", VStr (Post.content p));
        ("createdAt", VStr (toISOString (Post.createdAt p)))].

(** The [catch] block every post tool ends with. *)
Definition caught (error : thrown) : Promise ToolResult :=
  let errorMessage := errorMessage_of error in
  mret {| content :=
            [ {| type := "text";
                 text := JSON_stringify
                           (VObj [("success", VBool false);
                                  ("error", VStr errorMessage)]) |} ];
          isError := Some true |}.

Definition list_posts (limit : float) : Promise ToolResult :=
  try_catch
    (posts ← findMany_desc_id limit;
     mret {| content :=
               [ {| type := "text";
                    text := JSON_stringify
                              (VObj [("success", VBool true);
                                     ("count", VNum (of_uint63 (Uint63.of_Z (Z.of_nat (length posts)))));
                                     ("posts", VArr (post_value <$> posts))]) |} ];
             isError := None |})
    caught.

Definition get_post (id : string) : Promise ToolResult :=
  try_catch
    (post ← findFirst_eq_id id;
     match post with
     | None =>
         mret {| content :=
                   [ {| type := "text";
                        text := JSON_stringify
                                  (VObj [("success", VBool false);
                                         ("error", VStr ("Post with ID " +:+ id +:+ " not found"))]) |} ];
                 isError := Some true |}
     | Some post =>
         mret {| content :=
                   [ {| type := "text";
                        text := JSON_stringify
                                  (VObj [("success", VBool true);
                                         ("post", post_value post)]) |} ];
                 isError := None |}
     end)
    caught.

Definition create_post (title content : string) : Promise ToolResult :=
  try_catch
    (returned ← insert_returning title content;
     let newPost := option.default VUndefined (post_value <$> head returned) in
     mret {| Mcp.content :=
               [ {| type := "text";
                    text := JSON_stringify
                              (VObj [("success", VBool true);
                                     ("post", newPost)]) |} ];
             isError := None |})
    caught.

Definition delete_post (id : string) : Promise ToolResult :=
  try_catch
    (deletedPost ← findFirst_eq_id id;
     match deletedPost with
     | None =>
         mret {| content :=
                   [ {| type := "text";
                        text := JSON_stringify
                                  (VObj [("success", VBool false);
                                         ("error", VStr ("Post with ID " +:+ id +:+ " not found"))]) |} ];
                 isError := Some true |}
     | Some deletedPost =>
         _ ← delete_where_eq_id id;
         mret {| content :=
                   [ {| type := "text";
                        text := JSON_stringify
                                  (VObj [("success", VBool true);
                                         ("message", VStr ("Post " +:+ id +:+ " deleted successfully"));
                                         ("deletedPost", post_value deletedPost)]) |} ];
                 isError := None |}
     end)
    caught.

(** *** Registration and dispatch *)

(** A registered tool: its name, its description, its input schema as the
    parser of the raw argument set, and its handler. *)
Record ToolDefinition : Type := {
  name : string;
  description : string;
  Args : Type;
  inputSchema : gmap string value → Zod.issue + Args;
  handler : Args → Promise ToolResult;
}.

Definition two_numbers (raw : gmap string value) : Zod.issue + (float * float) :=
  Zod.and_then (Zod.field "a" Zod.z_number raw) (fun a =>
  Zod.and_then (Zod.field "b" Zod.z_number raw) (fun b =>
  inr (a, b))).

Definition add_tool : ToolDefinition :=
  {| name := "add";
     description := "Add two numbers together.";
     inputSchema := two_numbers;
     handler := fun '(a, b) => mret (add a b) |}.

Definition subtract_tool : ToolDefinition :=
  {| name := "subtract";
     description := "Subtract the second number from the first number.";
     inputSchema := two_numbers;
     handler := fun '(a, b) => mret (subtract a b) |}.

Definition multiply_tool : ToolDefinition :=
  {| name := "multiply";
     description := "Multiply two numbers together.";
     inputSchema := two_numbers;
     handler := fun '(a, b) => mret (multiply a b) |}.

Definition divide_tool : ToolDefinition :=
  {| name := "divide";
     description := "Divide the first number by the second number.";
     inputSchema := two_numbers;
     handler := fun '(a, b) => mret (divide a b) |}.

Definition arithmetic_tools : list ToolDefinition :=
  [add_tool; subtract_tool; multiply_tool; divide_tool].

(** [z.number().int().min(1).max(100).optional().default(10)] *)
Definition limit_schema : Zod.schema float :=
  Zod.z_number |> Zod.int |> Zod.min 1 |> Zod.max 100
  |> Zod.optional |> Zod.default 10%float.

(** [z.string().uuid()] *)
Definition id_schema : Zod.schema string := Zod.z_string |> Zod.uuid.

(** [z.string().min(1).max(256)] *)
Definition text_schema : Zod.schema string :=
  Zod.z_string |> Zod.string_min 1 |> Zod.string_max 256.

Definition list_posts_tool : ToolDefinition :=
  {| name := "list_posts";
     description := "Retrieve a list of all posts, ordered by creation date (newest first). Returns up to 10 posts by default.";
     inputSchema := Zod.field "limit" limit_schema;
     handler := list_posts |}.

Definition get_post_tool : ToolDefinition :=
  {| name := "get_post";
     description := "Retrieve a specific post by its ID. Returns the post details including title, content, and timestamps.";
     inputSchema := Zod.field "id" id_schema;
     handler := get_post |}.

Definition create_post_tool : ToolDefinition :=
  {| name := "create_post";
     description := "Create a new post with a title and content. Returns the created post with its generated ID and timestamps.";
     inputSchema := fun raw =>
       Zod.and_then (Zod.field "title" text_schema raw) (fun title =>
       Zod.and_then (Zod.field "content" text_schema raw) (fun content =>
       inr (title, content)));
     handler := fun '(title, content) => create_post title content |}.

Definition delete_post_tool : ToolDefinition :=
  {| name := "delete_post";
     description := "Delete a post by its ID. Returns success status and the deleted post ID.";
     inputSchema := Zod.field "id" id_schema;
     handler := delete_post |}.

Definition post_tools : list ToolDefinition :=
  [list_posts_tool; get_post_tool; create_post_tool; delete_post_tool].

Definition registry : list ToolDefinition := arithmetic_tools ++ post_tools.

(** The three outcomes of an invocation. *)
Inductive outcome : Type :=
| UnknownTool
| InvalidArguments (i : Zod.issue)
| Returned (r : ToolResult).

(** Modelled from the spec: the dispatch of a tool call, which the
    [mcp-handler] server performs and the sources do not contain. It looks
    the tool up, validates the raw arguments against the input schema
    (defaults applied), runs the handler, and turns a fault the handler
    raises into an error result. *)
Definition invoke (tools : list ToolDefinition) (toolName : string)
    (rawArguments : gmap string value) : Promise outcome :=
  match find (fun t => String.eqb (name t) toolName) tools with
  | None => mret UnknownTool
  | Some t =>
      match inputSchema t rawArguments with
      | inl i => mret (InvalidArguments i)
      | inr args =>
          try_catch
            (r ← handler t args; mret (Returned r))
            (fun error =>
               mret (Returned
                       {| content :=
                            [ {| type := "text";
                                 text := JSON_stringify
                                           (VObj [("success", VBool false);
                                                  ("error", VStr (errorMessage_of error))]) |} ];
                          isError := Some true |}))
      end
  end.

End Mcp.

(** ** The documents and inputs the properties speak of *)

Module Doc.
Import Js Db Mcp.

(** [{success: true, result, operation, operands: {a, b}}] *)
Definition operation (name : string) (result a b : value) : value :=
  VObj [("success", VBool true);
        ("result", result);
        ("operation", VStr name);
        ("operands", VObj [("a", a); ("b", b)])].

(** [{success: false, error}] *)
Definition failure (message : string) : value :=
  VObj [("success", VBool false); ("error", VStr message)].

(** [{success: true, post}] *)
Definition found (p : Post.t) : value :=
  VObj [("success", VBool true); ("post", post_value p)].

(** [{success: true, count, posts}] *)
Definition listing (posts : list Post.t) : value :=
  VObj [("success", VBool true);
        ("count", VNum (of_uint63 (Uint63.of_Z (Z.of_nat (length posts)))));
        ("posts", VArr (post_value <$> posts))].

(** [{success: true, message, deletedPost}] *)
Definition deleted (id : string) (p : Post.t) : value :=
  VObj [("success", VBool true);
        ("message", VStr ("Post " +:+ id +:+ " deleted successfully"));
        ("deletedPost", post_value p)].

(** A result with one text block. *)
Definition result_of (doc : value) (flag : option bool) : ToolResult :=
  {| content := [ {| type := "text"; text := JSON_stringify doc |} ];
     isError := flag |}.

(** What dispatch makes of a settled handler. *)
Definition dispatched (run : settled ToolResult * store) : settled outcome * store :=
  match run with
  | (Fulfilled r, st') => (Fulfilled (Returned r), st')
  | (Rejected e, st') =>
      (Fulfilled (Returned (result_of (failure (errorMessage_of e)) (Some true))), st')
  end.

(** The largest finite number, [Number.MAX_VALUE]. *)
Definition MAX_VALUE : float := 0x1.fffffffffffffp+1023%float.

(** Newest first: no row is followed by a row created later. *)
Fixpoint newest_first (posts : list Post.t) : bool :=
  match posts with
  | [] => true
  | p :: rest =>
      forallb (fun q => Post.createdAt q <=? Post.createdAt p) rest
      && newest_first rest
  end.

(** A table of two posts: the first written has the greater identifier. *)
Definition older : Post.t :=
  {| Post.id := "c9a646d3-9c61-4cb7-bfcd-ee2522c8f633";
     Post.title := "first"; Post.content := "written first";
     Post.createdAt := 1762041600000 |}.

Definition newer : Post.t :=
  {| Post.id := "1b9d6bcd-bbfd-4b2d-9b5d-ab8dfbbd4bed";
     Post.title := "second"; Post.content := "written second";
     Post.createdAt := 1762128000000 |}.

Definition empty_store : store :=
  {| rows := []; calls := []; outage := fun _ => None;
     gen_random_uuid := fun n => "3f2504e0-4f89-41d3-9a0c-0305e82c330" +:+ decimal (Z.of_nat n);
     now := fun n => 1762128000000 + Z.of_nat n |}.

Definition two_posts : store := with_rows empty_store [older; newer].

(** A store whose next call fails. *)
Definition down : store :=
  {| rows := [older; newer]; calls := [];
     outage := fun n => match n with O => Some (ThrowError "connection refused") | _ => None end;
     gen_random_uuid := gen_random_uuid empty_store; now := now empty_store |}.

(** A key with its colon, as the payload writes it. *)
Definition member (key rest : string) : string := quote key +:+ ": " +:+ rest.

End Doc.

(** ** Searching a payload for a piece of text

    A scan of the text that follows every started occurrence of the needle
    at once: what is left to read of each. It finds what [includes] finds,
    and it can be run piece by piece over a payload. *)

Module Scan.
Import Js Mcp.

Section Needle.
Variable needle : string.

(** What is left of a started occurrence after the code unit [c]. *)
Definition step (c : ascii) (left : string) : option string :=
  match left with
  | String c' left' => if Ascii.eqb c c' then Some left' else None
  | EmptyString => None
  end.

Definition advance (c : ascii) (live : list string) : list string :=
  omap (step c) (needle :: live).

Definition hit (live : list string) : bool :=
  existsb (fun left => match left with EmptyString => true | _ => false end) live.

(** [None]: the needle was read; else the occurrences still open. *)
Fixpoint scan (live : list string) (t : string) : option (list string) :=
  match t with
  | EmptyString => Some live
  | String c t' =>
      let live' := advance c live in
      if hit live' then None else scan live' t'
  end.

(** The text [t] is read from [live] without meeting the needle, and
    [Q] holds of what is then open. *)
Definition passes (t : string) (Q : list string → Prop) (live : list string) : Prop :=
  ∃ live', scan live t = Some live' ∧ Q live'.

Definition downward (Q : list string → Prop) : Prop :=
  ∀ l1 l2, l1 ⊆ l2 → Q l2 → Q l1.
End Needle.

Fixpoint tails (s : string) : list string :=
  match s with
  | EmptyString => []
  | String _ s' => s' :: tails s'
  end.

(** The key [success] with the value [false], and with [true]. *)
Definition success_false : string := Eval vm_compute in Doc.member "success" "false".
Definition success_true : string := Eval vm_compute in Doc.member "success" "true".

(** The occurrences of [success_false] that have not passed the closing
    quote of the key. *)
Definition calm : list string := Eval vm_compute in take 8 (tails success_false).

(** A piece of text that keeps calm occurrences calm. *)
Definition quiet (t : string) : Prop :=
  ∀ live, live ⊆ calm →
    ∃ live', scan success_false live t = Some live' ∧ live' ⊆ calm.

Definition within (live allowed : list string) : bool :=
  forallb (fun left => existsb (String.eqb left) allowed) live.

(** No double quote in the text. *)
Fixpoint plain (s : string) : bool :=
  match s with
  | EmptyString => true
  | String c s' => negb (Ascii.eqb c dquote) && plain s'
  end.

(** The error flag says what the payload says: [isError] is [true]
    exactly when the payload includes the key [success] with [false], and
    a result that is not an error leaves [isError] out and carries the key
    with [true]. *)
Definition agrees (r : ToolResult) : Prop :=
  (isError r = Some true ↔ includes (payload r) success_false = true)
  ∧ (isError r = Some true
     ∨ isError r = None ∧ includes (payload r) success_true = true).

End Scan.

(** ** The options of the handler *)

(** [process.env], as far as the handler reads it. *)
Module Env.
Record t : Type := { REDIS_URL : option string; NODE_ENV : option string }.
End Env.

(** [config?: { redisUrl?, basePath?, maxDuration?, verboseLogs? }] *)
Module Config.
Record t : Type := {
  redisUrl : option string;
  basePath : option string;
  maxDuration : option float;
  verboseLogs : option bool;
}.
End Config.

(** The options [createHandler] is given. *)
Module Options.
Record t : Type := {
  redisUrl : option string;
  basePath : string;
  maxDuration : float;
  verboseLogs : bool;
}.
End Options.

Module Handler.
Import Js Mcp.

(** [x ?? y] *)
Definition nullish {A} (x : option A) (y : A) : A :=
  match x with Some a => a | None => y end.

(** [process.env.NODE_ENV === "development"] *)
Definition is_development (env : Env.t) : bool :=
  match Env.NODE_ENV env with
  | Some mode => String.eqb mode "development"
  | None => false
  end.

(** The third argument of [createHandler], the same in both handlers;
    [config?.x] is [config ≫= x]. *)
Definition options (config : option Config.t) (process_env : Env.t) : Options.t :=
  {| Options.redisUrl :=
       match config ≫= Config.redisUrl with
       | Some url => Some url
       | None => Env.REDIS_URL process_env
       end;
     Options.basePath := nullish (config ≫= Config.basePath) "/api";
     Options.maxDuration := nullish (config ≫= Config.maxDuration) 60%float;
     Options.verboseLogs :=
       nullish (config ≫= Config.verboseLogs) (is_development process_env) |}.

(** What [createHandler] receives: the tools the callback registers and
    the options. *)
Record McpHandler : Type := { tools : list ToolDefinition; handlerOptions : Options.t }.

(** [createMcpHandler] of [packages/mcp/src/index.ts] *)
Definition createMcpHandler (config : option Config.t) (process_env : Env.t) : McpHandler :=
  {| tools := arithmetic_tools; handlerOptions := options config process_env |}.

(** [createMcpHandler] with the post tools *)
Definition createMcpHandler_posts (config : option Config.t) (process_env : Env.t) : McpHandler :=
  {| tools := post_tools; handlerOptions := options config process_env |}.

(** [apps/nextjs/src/app/api/mcp/route.ts]: the handler of the route, from
    the validated environment [env] of the application. *)
Definition route (env process_env : Env.t) : McpHandler :=
  createMcpHandler
    (Some {| Config.redisUrl := Env.REDIS_URL env;
             Config.basePath := Some "/api";
             Config.maxDuration := Some 60%float;
             Config.verboseLogs := Some (is_development env) |})
    process_env.

End Handler.

(** ** Stores with a failing call *)

Module Fault.
Import Js Db.

(** The store [st] in which the call number [k] fails with [e]. *)
Definition failing (k : nat) (e : thrown) (st : store) : store :=
  {| rows := rows st; calls := calls st;
     outage := fun n => if (n =? k)%nat then Some e else outage st n;
     gen_random_uuid := gen_random_uuid st; now := now st |}.

Definition timed_out : thrown := ThrowError "Connection terminated due to connection timeout".

End Fault.

(** * Properties *)

Import Js Db Mcp.

(** ** The runtime on examples *)

Example Number_toString_examples :
  Number_toString <$> [0; -0; 5; -42; 0.5; 2.5; 100; 1e21; 1e22; 0x1p-20;
                       0x1.999999999999ap-4 + 0x1.999999999999ap-3;
                       10 / 3; infinity; nan]%float
  = ["0"; "0"; "5"; "-42"; "0.5"; "2.5"; "100"; "1e+21"; "1e+22";
     "9.5367431640625e-7"; "0.30000000000000004"; "3.3333333333333335";
     "Infinity"; "NaN"].
Proof. by vm_compute. Qed.

Example toISOString_examples :
  toISOString <$> [0; -1; 951782400000; 1762128000123]
  = ["1970-01-01T00:00:00.000Z"; "1969-12-31T23:59:59.999Z";
     "2000-02-29T00:00:00.000Z"; "2025-11-03T00:00:00.123Z"].
Proof. by vm_compute. Qed.

Example escape_examples :
  escape (String dquote "a\b" +:+ newline) = "\" +:+ String dquote "a\\b\n".
Proof. by vm_compute. Qed.

Example limit_schema_examples :
  limit_schema <$> [VUndefined; VNum 1; VNum 100; VNum 0; VNum 101; VNum 1.5;
                    VNum nan; VStr "10"; VNull]
  = [inr 10; inr 1; inr 100; inl Zod.too_small; inl Zod.too_big;
     inl Zod.invalid_type; inl Zod.invalid_type; inl Zod.invalid_type;
     inl Zod.invalid_type]%float.
Proof. by vm_compute. Qed.

(** ** Strings *)

Lemma append_cons c (a b : string) : String c a +:+ b = String c (a +:+ b).
Proof. reflexivity. Qed.

Lemma append_nil (b : string) : "" +:+ b = b.
Proof. reflexivity. Qed.


Lemma append_empty_r (a : string) : a +:+ "" = a.
Proof. induction a as [|x a IH]; [done|]. by rewrite append_cons, IH. Qed.

Lemma startsWith_app t rest : startsWith (t +:+ rest) t = true.
Proof.
  induction t as [|c t IH]; [by destruct rest|].
  rewrite append_cons. simpl. by rewrite Ascii.eqb_refl.
Qed.

Lemma startsWith_app_l t b p : startsWith t p = true → startsWith (t +:+ b) p = true.
Proof.
  revert t. induction p as [|c p IH]; intros t; simpl.
  - intros _. by destruct (t +:+ b).
  - destruct t as [|d t]; simpl; [done|].
    intros [-> H]%andb_true_iff. by rewrite IH.
Qed.

Lemma includes_startsWith t p : startsWith t p = true → includes t p = true.
Proof. intros H. destruct t; simpl in *; by rewrite H. Qed.

Lemma includes_app_r a t p : includes t p = true → includes (a +:+ t) p = true.
Proof.
  intros H. induction a as [|c a IH]; [done|].
  rewrite append_cons. simpl. rewrite IH. apply orb_true_r.
Qed.

Lemma includes_app_l t b p : includes t p = true → includes (t +:+ b) p = true.
Proof.
  induction t as [|c t IH]; simpl.
  - rewrite orb_false_r. intros H. destruct p; [|done]. by destruct b.
  - intros [H|H]%orb_true_iff.
    + pose proof (startsWith_app_l (String c t) b p H) as H'.
      simpl in H'. by rewrite H'.
    + rewrite (IH H). apply orb_true_r.
Qed.

Lemma includes_middle a s b : includes (a +:+ s +:+ b) s = true.
Proof. apply includes_app_r, includes_startsWith, startsWith_app. Qed.

(** *** Identifiers are written as they are *)







Lemma includes_quote s p : includes (escape s) p = true → includes (quote s) p = true.
Proof.
  intros H. unfold quote.
  rewrite <- (append_nil (escape s +:+ _)), <- append_cons.
  by apply includes_app_r, includes_app_l.
Qed.

Lemma includes_failure_payload message p :
  includes (escape message) p = true →
  includes (JSON_stringify (Doc.failure message)) p = true.
Proof.
  intros H. unfold JSON_stringify, Doc.failure.
  cbn [serialize omap list_omap fmap option_fmap option_map option.default
       from_option bracket join id].
  do 3 apply includes_app_r. apply includes_app_l.
  do 4 apply includes_app_r. by apply includes_quote.
Qed.

(** ** Numbers in payloads *)

Lemma is_json_of_number x : is_json (json_of_number x) = true.
Proof. unfold json_of_number. by destruct (is_finite x) eqn:E. Qed.

Lemma serialize_of_number ind x :
  serialize ind (json_of_number x) = Some (json_number x).
Proof.
  unfold json_of_number, json_number.
  by destruct (is_finite x) eqn:E; simpl; unfold json_number; rewrite ?E.
Qed.

Lemma json_of_finite x : is_finite x = true → json_of_number x = VNum x.
Proof. unfold json_of_number. by intros ->. Qed.

Lemma decodes_to_stringify doc :
  is_json doc = true → decodes_to (JSON_stringify doc) doc = true.
Proof.
  intros H. unfold decodes_to. rewrite H. simpl.
  by apply String.eqb_eq.
Qed.

Lemma stringify_operation name r a b :
  JSON_stringify (Doc.operation name (VNum r) (VNum a) (VNum b))
  = JSON_stringify (Doc.operation name (json_of_number r) (json_of_number a)
                                  (json_of_number b)).
Proof.
  unfold JSON_stringify, Doc.operation.
  cbn [serialize omap list_omap fmap option_fmap option_map].
  by rewrite !serialize_of_number.
Qed.

Lemma decodes_to_operation name r a b :
  decodes_to (JSON_stringify (Doc.operation name (VNum r) (VNum a) (VNum b)))
             (Doc.operation name (json_of_number r) (json_of_number a)
                            (json_of_number b)) = true.
Proof.
  rewrite stringify_operation. apply decodes_to_stringify.
  cbn. by rewrite !is_json_of_number.
Qed.

(** ** Scanning *)

Section ScanFacts.
Import Scan.
Variable needle : string.
Hypothesis needle_not_empty : needle ≠ "".

Lemma scan_app live a b :
  scan needle live (a +:+ b)
  = match scan needle live a with
    | Some live' => scan needle live' b
    | None => None
    end.
Proof.
  revert live. induction a as [|c a IH]; intros live; [done|].
  rewrite append_cons. simpl. by destruct (hit _).
Qed.

Lemma startsWith_empty r : startsWith "" r = true → r = "".
Proof. by destruct r. Qed.

Lemma existsb_step c t' l :
  Forall (fun r => r ≠ "") l →
  existsb (startsWith t') (omap (step c) l) = existsb (startsWith (String c t')) l.
Proof.
  induction 1 as [|r l Hr _ IH]; [done|].
  destruct r as [|c' r]; [done|]. cbn [existsb omap list_omap step].
  rewrite <- IH. change (startsWith (String c t') (String c' r))
    with (Ascii.eqb c' c && startsWith t' r).
  rewrite (Ascii.eqb_sym c' c). by destruct (Ascii.eqb c c').
Qed.

Lemma hit_step c l :
  hit (omap (step c) l) = existsb (String.eqb (String c "")) l.
Proof.
  induction l as [|r l IH]; [done|].
  destruct r as [|c' r]; cbn [existsb omap list_omap step]; rewrite <- IH;
    [reflexivity|].
  change (String.eqb (String c "") (String c' r))
    with (Ascii.eqb c c' && String.eqb "" r).
  destruct (Ascii.eqb c c'); [|reflexivity]. by destruct r.
Qed.

Lemma hit_false_nonempty l : hit l = false → Forall (fun r => r ≠ "") l.
Proof.
  induction l as [|r l IH]; simpl; [constructor|].
  destruct r; [done|]. intros H. constructor; [done|]. by apply IH.
Qed.

Lemma startsWith_one c t' r :
  String.eqb (String c "") r = true → startsWith (String c t') r = true.
Proof.
  intros H%String.eqb_eq. subst r. simpl. rewrite Ascii.eqb_refl. by destruct t'.
Qed.

(** The scan meets the needle exactly when the text continues an open
    occurrence to its end, or includes the needle. *)
Lemma scan_spec t live :
  Forall (fun r => r ≠ "") live →
  scan needle live t = None
  ↔ existsb (startsWith t) live || includes t needle = true.
Proof.
  revert live. induction t as [|c t IH]; intros live Hlive.
  - simpl. split; [done|]. intros [H|H]%orb_true_iff.
    + apply existsb_exists in H as (r & Hr & ->%startsWith_empty).
      rewrite Forall_forall in Hlive.
      by destruct (Hlive "" (proj2 (list_elem_of_In _ _) Hr)).
    + rewrite orb_false_r in H. by apply startsWith_empty in H.
  - cbn [scan includes]. unfold advance. rewrite hit_step.
    destruct (existsb (String.eqb (String c "")) (needle :: live)) eqn:Hhit.
    + split; [intros _|done].
      apply existsb_exists in Hhit as (r & Hr & Heq).
      apply (startsWith_one c t) in Heq.
      destruct Hr as [<-|Hr]; [by rewrite Heq, orb_true_r|].
      apply orb_true_iff. left. apply existsb_exists. eauto.
    + rewrite IH; [|apply hit_false_nonempty; by rewrite hit_step].
      rewrite existsb_step; [|by constructor]. cbn [existsb].
      by destruct (startsWith (String c t) needle),
           (existsb (startsWith (String c t)) live), (includes t needle).
Qed.

Lemma scan_clear t live' : scan needle [] t = Some live' → includes t needle = false.
Proof.
  intros H. destruct (includes t needle) eqn:E; [|done].
  assert (scan needle [] t = None) as Hnone; [|congruence].
  apply scan_spec; [constructor|]. by rewrite E.
Qed.

Lemma scan_found t : scan needle [] t = None → includes t needle = true.
Proof. intros H. apply scan_spec in H; [done|constructor]. Qed.

(** More open occurrences meet the needle no later. *)
Lemma advance_mono c l1 l2 : l1 ⊆ l2 → advance needle c l1 ⊆ advance needle c l2.
Proof.
  intros H r. unfold advance. rewrite !list_elem_of_omap.
  intros (y & Hy & Hs). exists y. split; [|done].
  apply elem_of_cons in Hy as [->|Hy]; [left|right; by apply H].
Qed.

Lemma hit_mono l1 l2 : l1 ⊆ l2 → hit l1 = true → hit l2 = true.
Proof.
  intros H (r & Hr & Hx)%existsb_exists. apply existsb_exists.
  exists r. split; [|done]. apply list_elem_of_In, H, list_elem_of_In, Hr.
Qed.

Lemma scan_mono t l1 l2 l2' :
  l1 ⊆ l2 → scan needle l2 t = Some l2' →
  ∃ l1', scan needle l1 t = Some l1' ∧ l1' ⊆ l2'.
Proof.
  revert l1 l2. induction t as [|c t IH]; intros l1 l2 H; simpl.
  - intros [= <-]. by exists l1.
  - destruct (hit (advance needle c l2)) eqn:E2; [done|].
    destruct (hit (advance needle c l1)) eqn:E1.
    + apply (hit_mono _ _ (advance_mono c _ _ H)) in E1. congruence.
    + apply IH. by apply advance_mono.
Qed.

Lemma passes_app a b Q live :
  passes needle a (passes needle b Q) live → passes needle (a +:+ b) Q live.
Proof.
  intros (l1 & Ha & l2 & Hb & HQ). exists l2. by rewrite scan_app, Ha.
Qed.

Lemma passes_closed t Q live live' :
  scan needle live t = Some live' → Q live' → passes needle t Q live.
Proof. intros H HQ. by exists live'. Qed.

Lemma passes_downward t Q : downward Q → downward (passes needle t Q).
Proof.
  intros HQ l1 l2 H (l2' & Hs & Hq).
  destruct (scan_mono t l1 l2 l2' H Hs) as (l1' & Hs1 & Hsub).
  exists l1'. split; [done|]. by apply (HQ l1' l2').
Qed.

Lemma downward_True : downward (fun _ => True).
Proof. by intros ???. Qed.

Lemma passes_clear t : passes needle t (fun _ => True) [] → includes t needle = false.
Proof. intros (l & H & _). by apply (scan_clear t l). Qed.
End ScanFacts.

(** ** Payloads never spell a failure they do not report *)

Section Quiet.
Import Scan.

Lemma success_false_not_empty : success_false ≠ "".
Proof. done. Qed.

Lemma success_true_not_empty : success_true ≠ "".
Proof. done. Qed.

Lemma within_subseteq live allowed : within live allowed = true → live ⊆ allowed.
Proof.
  unfold within. rewrite forallb_forall. intros H r Hr%list_elem_of_In.
  apply H, existsb_exists in Hr as (r' & Hr' & ->%String.eqb_eq).
  by apply list_elem_of_In.
Qed.

Lemma downward_calm : downward (fun live => live ⊆ calm).
Proof. intros l1 l2 H12 H2 r Hr. by apply H2, H12. Qed.

Lemma quiet_of_passes t :
  passes success_false t (fun live => live ⊆ calm) calm → quiet t.
Proof.
  intros H live Hlive.
  exact (passes_downward success_false t _ downward_calm live calm Hlive H).
Qed.

Lemma quiet_closed t live' :
  scan success_false calm t = Some live' → within live' calm = true → quiet t.
Proof.
  intros Hs Hw. apply quiet_of_passes. exists live'. split; [done|].
  by apply within_subseteq.
Qed.

Lemma quiet_nil : quiet "".
Proof. intros live H. by exists live. Qed.

Lemma quiet_app a b : quiet a → quiet b → quiet (a +:+ b).
Proof.
  intros Ha Hb live H. destruct (Ha live H) as (l1 & Hs1 & H1).
  destruct (Hb l1 H1) as (l2 & Hs2 & H2). exists l2.
  by rewrite scan_app, Hs1.
Qed.

Lemma quiet_cons c s : quiet (String c "") → quiet s → quiet (String c s).
Proof. intros Hc Hs. by apply (quiet_app (String c "") s). Qed.

(** A code unit other than the double quote is quiet. *)
Lemma quiet_char c : Ascii.eqb c dquote = false → quiet (String c "").
Proof.
  destruct c as [[] [] [] [] [] [] [] []]; intros H;
    first [ discriminate H
          | eapply quiet_closed; vm_compute; reflexivity ].
Qed.

Lemma quiet_plain s : plain s = true → quiet s.
Proof.
  induction s as [|c s IH]; simpl; [intros _; apply quiet_nil|].
  intros [Hc Hs]%andb_true_iff. apply quiet_cons; [|by apply IH].
  apply quiet_char. by destruct (Ascii.eqb c dquote).
Qed.

(** An escaped code unit is quiet: a double quote comes after a
    backslash, which no occurrence survives. *)
Lemma quiet_escape_char c : quiet (escape_char c).
Proof.
  destruct c as [[] [] [] [] [] [] [] []];
    eapply quiet_closed; vm_compute; reflexivity.
Qed.

Lemma quiet_escape s : quiet (escape s).
Proof.
  induction s as [|c s IH]; [apply quiet_nil|].
  cbn [escape]. apply quiet_app; [apply quiet_escape_char|done].
Qed.

Lemma quiet_join sep parts :
  quiet sep → Forall quiet parts → quiet (join sep parts).
Proof.
  intros Hsep. induction 1 as [|p parts Hp Hparts IH]; [apply quiet_nil|].
  cbn [join]. destruct parts as [|q parts]; [done|].
  apply quiet_app; [done|]. by apply quiet_app.
Qed.

Lemma passes_quiet v Q live :
  quiet v → within live calm = true → downward Q → Q calm →
  passes success_false v Q live.
Proof.
  intros Hv Hw HQ Hcalm.
  destruct (Hv live (within_subseteq _ _ Hw)) as (live' & Hs & Hsub).
  exists live'. split; [done|]. by apply (HQ live' calm).
Qed.

Lemma passes_quote needle s Q live :
  passes needle (String dquote "")
         (passes needle (escape s) (passes needle (String dquote "") Q)) live →
  passes needle (quote s) Q live.
Proof.
  intros (l1 & H1 & l2 & H2 & l3 & H3 & HQ). unfold quote.
  rewrite <- (append_nil (escape s +:+ _)), <- append_cons.
  exists l3. by rewrite scan_app, H1, scan_app, H2.
Qed.

(** *** Numbers are written without quotes *)

Lemma plain_app a b : plain (a +:+ b) = plain a && plain b.
Proof.
  induction a as [|c a IH]; [done|].
  rewrite append_cons. simpl. by rewrite IH, andb_assoc.
Qed.

Lemma plain_substring n m s : plain s = true → plain (substring n m s) = true.
Proof.
  revert n m. induction s as [|c s IH]; intros n m; simpl.
  - by destruct n, m.
  - intros [Hc Hs]%andb_true_iff. destruct n as [|n].
    + destruct m as [|m]; simpl; [done|]. by rewrite Hc, IH.
    + by apply IH.
Qed.

Lemma plain_zeros n : plain (zeros n) = true.
Proof. induction n as [|n IH]; simpl; [done|]. by rewrite IH. Qed.

Lemma plain_digit n : Ascii.eqb (digit_char (n mod 10)) dquote = false.
Proof.
  pose proof (Z.mod_pos_bound n 10 ltac:(lia)) as H.
  assert (n mod 10 = 0 ∨ n mod 10 = 1 ∨ n mod 10 = 2 ∨ n mod 10 = 3
          ∨ n mod 10 = 4 ∨ n mod 10 = 5 ∨ n mod 10 = 6 ∨ n mod 10 = 7
          ∨ n mod 10 = 8 ∨ n mod 10 = 9) as Hd by lia.
  destruct Hd as [->|[->|[->|[->|[->|[->|[->|[->|[->| ->]]]]]]]]]; vm_compute; reflexivity.
Qed.

Lemma plain_decimal_loop fuel n acc :
  plain acc = true → plain (decimal_loop fuel n acc) = true.
Proof.
  revert n acc. induction fuel as [|fuel IH]; intros n acc Hacc; [done|].
  cbn [decimal_loop].
  assert (plain (String (digit_char (n mod 10)) acc) = true) as H.
  { cbn [plain]. by rewrite plain_digit, Hacc. }
  destruct (n <? 10); [done|]. by apply IH.
Qed.

Lemma plain_decimal n : plain (decimal n) = true.
Proof. by apply plain_decimal_loop. Qed.
Lemma plain_format_digits s k n : plain (format_digits s k n) = true.
Proof.
  unfold format_digits. cbv zeta.
  repeat match goal with
         | |- context [if ?b then _ else _] => destruct b
         end;
    rewrite ?plain_app, ?plain_substring, ?plain_zeros, ?plain_decimal;
    auto using plain_decimal.
Qed.

Lemma plain_Number_toString x : plain (Number_toString x) = true.
Proof.
  unfold Number_toString.
  destruct (Prim2SF x) as [s|s| |s m e]; [done|by destruct s|done|].
  destruct (search (Z.pos m) e 17 1) as [[d k] n].
  rewrite plain_app, plain_format_digits. by destruct s.
Qed.

Lemma quiet_number x : quiet (json_number x).
Proof.
  apply quiet_plain. unfold json_number.
  destruct (is_finite x); [apply plain_Number_toString|done].
Qed.
End Quiet.

(** *** The payloads of the tools *)

Ltac unfold_payload :=
  unfold JSON_stringify, Doc.operation, Doc.failure, Doc.found, Doc.deleted,
    Doc.listing;
  cbn [serialize omap list_omap fmap option_fmap option_map option.default
       from_option bracket join id post_value].

Ltac land := first [ exact I | apply within_subseteq; vm_compute; reflexivity ].

Ltac downward :=
  repeat apply passes_downward;
  first [ apply downward_True | apply downward_calm ].

(** Read the payload piece by piece: a fixed piece by computation, a number
    or an escaped string as a quiet piece. *)
Ltac walk quiet_rows :=
  lazymatch goal with
  | |- Scan.passes _ (_ +:+ _) _ _ => apply passes_app; walk quiet_rows
  | |- Scan.passes _ (json_number _) _ _ =>
      apply passes_quiet;
      [ apply quiet_number | vm_compute; reflexivity | downward | walk quiet_rows ]
  | |- Scan.passes _ (escape _) _ _ =>
      apply passes_quiet;
      [ apply quiet_escape | vm_compute; reflexivity | downward | walk quiet_rows ]
  | |- Scan.passes _ (bracket _ _ _ (map _ _)) _ _ =>
      apply passes_quiet;
      [ apply quiet_rows | vm_compute; reflexivity | downward | walk quiet_rows ]
  | |- Scan.passes _ (quote (String _ _)) _ _ =>
      eapply passes_closed; [ vm_compute; reflexivity | walk quiet_rows ]
  | |- Scan.passes _ (quote _) _ _ => apply passes_quote; walk quiet_rows
  | |- Scan.passes _ _ _ _ =>
      eapply passes_closed; [ vm_compute; reflexivity | walk quiet_rows ]
  | |- _ => land
  end.

(** The key [success] is the first of every payload. *)
Ltac spot :=
  unfold_payload; do 3 apply includes_app_r; do 2 apply includes_app_l;
  vm_compute; reflexivity.

Lemma operation_clear name r a b :
  includes (JSON_stringify (Doc.operation name (VNum r) (VNum a) (VNum b)))
           Scan.success_false = false.
Proof.
  apply (passes_clear _ success_false_not_empty).
  unfold_payload. walk quiet_nil.
Qed.

Lemma operation_true name r a b :
  includes (JSON_stringify (Doc.operation name (VNum r) (VNum a) (VNum b)))
           Scan.success_true = true.
Proof. spot. Qed.

Lemma failure_false message :
  includes (JSON_stringify (Doc.failure message)) Scan.success_false = true.
Proof. spot. Qed.

Lemma quiet_row p :
  Scan.quiet (default "null" (serialize "    " (post_value p))).
Proof. apply quiet_of_passes. unfold_payload. walk quiet_nil. Qed.

Lemma quiet_rows posts :
  Scan.quiet (bracket "[" "]" "  "
                (map (fun item => default "null" (serialize "    " item))
                     (post_value <$> posts))).
Proof.
  destruct posts as [|p posts]; [by apply quiet_plain|].
  cbn [fmap list_fmap map bracket].
  repeat (apply quiet_app; [by apply quiet_plain|]).
  apply quiet_app; [|by apply quiet_plain].
  apply quiet_join; [by apply quiet_plain|].
  change (Forall Scan.quiet
            (map (fun item => default "null" (serialize "    " item))
                 (post_value <$> p :: posts))).
  induction (p :: posts) as [|q rest IH]; constructor; [apply quiet_row|apply IH].
Qed.

Lemma found_clear p :
  includes (JSON_stringify (Doc.found p)) Scan.success_false = false.
Proof.
  apply (passes_clear _ success_false_not_empty).
  unfold_payload. walk quiet_nil.
Qed.

Lemma found_true p :
  includes (JSON_stringify (Doc.found p)) Scan.success_true = true.
Proof. spot. Qed.

Lemma deleted_clear id p :
  includes (JSON_stringify (Doc.deleted id p)) Scan.success_false = false.
Proof.
  apply (passes_clear _ success_false_not_empty).
  unfold_payload. walk quiet_nil.
Qed.

Lemma deleted_true id p :
  includes (JSON_stringify (Doc.deleted id p)) Scan.success_true = true.
Proof. spot. Qed.

Lemma listing_clear posts :
  includes (JSON_stringify (Doc.listing posts)) Scan.success_false = false.
Proof.
  apply (passes_clear _ success_false_not_empty).
  unfold_payload. walk quiet_rows.
Qed.

Lemma listing_true posts :
  includes (JSON_stringify (Doc.listing posts)) Scan.success_true = true.
Proof. spot. Qed.

Lemma agrees_failure message :
  Scan.agrees (Doc.result_of (Doc.failure message) (Some true)).
Proof.
  split; [|by left]. split; [|done]. intros _. apply failure_false.
Qed.

Lemma agrees_success doc :
  includes (JSON_stringify doc) Scan.success_false = false →
  includes (JSON_stringify doc) Scan.success_true = true →
  Scan.agrees (Doc.result_of doc None).
Proof.
  intros Hclear Htrue. split; [|by right].
  unfold payload. cbn [content Doc.result_of text isError]. rewrite Hclear.
  by split.
Qed.

Lemma agrees_operation name r a b :
  Scan.agrees (Doc.result_of (Doc.operation name (VNum r) (VNum a) (VNum b)) None).
Proof. apply agrees_success; [apply operation_clear|apply operation_true]. Qed.

(** ** The arithmetic tools *)

(** C2, as amended: for every pair of numbers [a] and [b] the divide tool
    returns an error result exactly when [b === 0]; then the result has
    [isError = true] and its payload is [{success: false, error: "Division by
    zero is not allowed"}]. When [b] is not zero the result is a success whose
    payload carries the quotient [a / b] if the quotient is finite, and
    [null] in its place if it is not. The tool is a total function: it
    throws nothing. *)
Theorem divide_error_exactly_on_zero (a b : float) :
  (isError (divide a b) = Some true ↔ (b =? 0)%float = true)
  ∧ ((b =? 0)%float = true →
       divide a b
       = Doc.result_of (Doc.failure "Division by zero is not allowed") (Some true)
       ∧ includes (payload (divide a b)) "Division by zero is not allowed" = true)
  ∧ ((b =? 0)%float = false →
       divide a b
       = Doc.result_of (Doc.operation "divide" (VNum (a / b)) (VNum a) (VNum b)) None
       ∧ decodes_to (payload (divide a b))
           (Doc.operation "divide" (json_of_number (a / b))
                          (json_of_number a) (json_of_number b)) = true
       ∧ (is_finite (a / b) = true →
            decodes_to (payload (divide a b))
              (Doc.operation "divide" (VNum (a / b))
                             (json_of_number a) (json_of_number b)) = true)).
Proof.
  unfold divide. destruct (b =? 0)%float eqn:Hb.
  - split; [by split|]. split; [|done]. intros _. split; [done|].
    by vm_compute.
  - split; [by split|]. split; [done|]. intros _. split; [done|].
    assert (Hdoc := decodes_to_operation "divide" (a / b)%float a b).
    split; [exact Hdoc|]. intros Hq.
    by rewrite (json_of_finite _ Hq) in Hdoc.
Qed.

(** The instances the spec gives: [invoke("divide", {a: 10, b: 0})] is an
    error that names the division by zero, and [invoke("divide", {a: 10,
    b: 2})] succeeds with the result 5. *)
Lemma divide_10_by_0_and_by_2 :
  (∀ st, invoke registry "divide" {[ "a" := VNum 10; "b" := VNum 0 ]} st
         = (Fulfilled (Returned (divide 10 0)), st))
  ∧ (divide 10 0
     = Doc.result_of (Doc.failure "Division by zero is not allowed") (Some true)
     ∧ includes (payload (divide 10 0)) "Division by zero is not allowed" = true)
  ∧ (divide 10 2
     = Doc.result_of (Doc.operation "divide" (VNum 5) (VNum 10) (VNum 2)) None
     ∧ decodes_to (payload (divide 10 2))
         (Doc.operation "divide" (VNum 5) (VNum 10) (VNum 2)) = true
     ∧ includes (payload (divide 10 2)) (Doc.member "result" "5") = true).
Proof.
  split; [by intros st; vm_compute|]. split.
  - exact (proj1 (proj2 (divide_error_exactly_on_zero 10 0)) eq_refl).
  - split; [done|]. split; [|by vm_compute].
    exact (proj2 (proj2 (proj2 (proj2 (divide_error_exactly_on_zero 10 2)) eq_refl))
             eq_refl).
Defined.

(** C2, as stated, fails where the quotient overflows: for
    [a = Number.MAX_VALUE] and [b = 0.5] the divisor is not zero, and the
    payload carries [null], not the quotient. *)
Lemma divide_overflow_writes_null :
  (0.5 =? 0)%float = false
  ∧ is_finite (Doc.MAX_VALUE / 0.5) = false
  ∧ decodes_to (payload (divide Doc.MAX_VALUE 0.5))
      (Doc.operation "divide" (VNum (Doc.MAX_VALUE / 0.5))
                     (VNum Doc.MAX_VALUE) (VNum 0.5)) = false
  ∧ includes (payload (divide Doc.MAX_VALUE 0.5)) (Doc.member "result" "null") = true.
Proof. by vm_compute. Qed.

(** C5, as amended: for every pair of finite numbers [a] and [b] whose sum
    is finite, the add tool returns a success result (no [isError]) with one
    text block, whose payload decodes to [{success: true, result: a + b,
    operation: "add", operands: {a, b}}]. *)
Theorem add_payload_decodes (a b : float) :
  is_finite a = true → is_finite b = true → is_finite (a + b) = true →
  isError (add a b) = None
  ∧ content (add a b)
    = [ {| type := "text"; text := payload (add a b) |} ]
  ∧ decodes_to (payload (add a b))
      (Doc.operation "add" (VNum (a + b)) (VNum a) (VNum b)) = true.
Proof.
  intros Ha Hb Hs. split; [done|]. split; [done|].
  assert (Hdoc := decodes_to_operation "add" (a + b)%float a b).
  by rewrite !json_of_finite in Hdoc.
Qed.

(** The instance the spec gives: [invoke("add", {a: 2, b: 3})] yields the
    result 5, written [5] in the payload. *)
Lemma add_2_3 :
  (∀ st, invoke registry "add" {[ "a" := VNum 2; "b" := VNum 3 ]} st
         = (Fulfilled (Returned (add 2 3)), st))
  ∧ (isError (add 2 3) = None
     ∧ content (add 2 3) = [ {| type := "text"; text := payload (add 2 3) |} ]
     ∧ decodes_to (payload (add 2 3))
         (Doc.operation "add" (VNum 5) (VNum 2) (VNum 3)) = true)
  ∧ includes (payload (add 2 3)) (Doc.member "result" "5") = true.
Proof.
  split; [by intros st; vm_compute|].
  split; [exact (add_payload_decodes 2 3 eq_refl eq_refl eq_refl)|].
  by vm_compute.
Defined.

(** C5, as stated, fails where the sum overflows: the sum of
    [Number.MAX_VALUE] with itself is [Infinity], and the payload carries
    [null] where the claim expects the sum. *)
Lemma add_overflow_writes_null :
  is_finite Doc.MAX_VALUE = true
  ∧ is_finite (Doc.MAX_VALUE + Doc.MAX_VALUE) = false
  ∧ decodes_to (payload (add Doc.MAX_VALUE Doc.MAX_VALUE))
      (Doc.operation "add" (VNum (Doc.MAX_VALUE + Doc.MAX_VALUE))
                     (VNum Doc.MAX_VALUE) (VNum Doc.MAX_VALUE)) = false
  ∧ includes (payload (add Doc.MAX_VALUE Doc.MAX_VALUE))
             (Doc.member "result" "null") = true.
Proof. by vm_compute. Qed.

(** ** Running the post tools *)

Lemma length_logged st q : length (calls (logged st q)) = S (length (calls st)).
Proof. simpl. rewrite length_app. simpl. lia. Qed.


(** The listing, step by step: one call, answered or failed. *)
Lemma list_posts_run limit st :
  list_posts limit st
  = match outage st (length (calls st)) with
    | Some e =>
        (Fulfilled (Doc.result_of (Doc.failure (errorMessage_of e)) (Some true)),
         logged st (FindMany limit))
    | None =>
        (Fulfilled
           (Doc.result_of
              (Doc.listing (take (Z.to_nat (truncate limit))
                                 (merge_sort desc_id (rows st)))) None),
         logged st (FindMany limit))
    end.
Proof.
  unfold list_posts, try_catch, mbind, promise_bind, await, findMany_desc_id, call.
  by destruct (outage st (length (calls st))).
Qed.

Lemma get_post_run id st :
  get_post id st
  = (Fulfilled
       match outage st (length (calls st)) with
       | Some e => Doc.result_of (Doc.failure (errorMessage_of e)) (Some true)
       | None =>
           match find (has_id id) (rows st) with
           | None =>
               Doc.result_of
                 (Doc.failure ("Post with ID " +:+ id +:+ " not found")) (Some true)
           | Some p => Doc.result_of (Doc.found p) None
           end
       end,
     logged st (FindFirst id)).
Proof.
  unfold get_post, try_catch, mbind, promise_bind, await, findFirst_eq_id, call.
  destruct (outage st (length (calls st))); [done|].
  by destruct (find (has_id id) (rows (logged st (FindFirst id)))) eqn:E;
    simpl in E; rewrite E.
Qed.

Lemma create_post_run title content st :
  create_post title content st
  = let n := length (calls st) in
    let row := {| Post.id := gen_random_uuid st n; Post.title := title;
                  Post.content := content; Post.createdAt := now st n |} in
    match outage st n with
    | Some e =>
        (Fulfilled (Doc.result_of (Doc.failure (errorMessage_of e)) (Some true)),
         logged st (Insert title content))
    | None =>
        if existsb (has_id (Post.id row)) (rows st)
        then (Fulfilled
                (Doc.result_of (Doc.failure (errorMessage_of unique_violation))
                               (Some true)),
              logged st (Insert title content))
        else (Fulfilled (Doc.result_of (Doc.found row) None),
              with_rows (logged st (Insert title content)) (rows st ++ [row]))
    end.
Proof.
  unfold create_post, try_catch, mbind, promise_bind, await, insert_returning, call.
  destruct (outage st (length (calls st))); [done|]. simpl.
  by destruct (existsb _ (rows st)).
Qed.

Lemma delete_post_run id st :
  delete_post id st
  = let n := length (calls st) in
    match outage st n with
    | Some e =>
        (Fulfilled (Doc.result_of (Doc.failure (errorMessage_of e)) (Some true)),
         logged st (FindFirst id))
    | None =>
        match find (has_id id) (rows st) with
        | None =>
            (Fulfilled
               (Doc.result_of
                  (Doc.failure ("Post with ID " +:+ id +:+ " not found")) (Some true)),
             logged st (FindFirst id))
        | Some p =>
            match outage st (S n) with
            | Some e =>
                (Fulfilled
                   (Doc.result_of (Doc.failure (errorMessage_of e)) (Some true)),
                 logged (logged st (FindFirst id)) (Delete id))
            | None =>
                (Fulfilled (Doc.result_of (Doc.deleted id p) None),
                 with_rows (logged (logged st (FindFirst id)) (Delete id))
                           (filter (fun p => negb (has_id id p)) (rows st)))
            end
        end
    end.
Proof.
  unfold delete_post, try_catch, mbind, promise_bind, await, findFirst_eq_id,
    delete_where_eq_id, call.
  cbn zeta. destruct (outage st (length (calls st))); [done|].
  cbn [rows logged]. destruct (find (has_id id) (rows st)); [|done].
  rewrite length_logged. cbn [outage logged].
  by destruct (outage st (S (length (calls st)))).
Qed.

(** ** The post tools *)

(** C3: the listing is ordered by identifier, not by creation date. On a
    table of two posts of which the first written has the greater
    identifier, [list_posts] puts the older post first, against its own
    description (ordered by creation date, newest first). *)
Theorem list_posts_orders_by_identifier :
  (list_posts 10 Doc.two_posts).1
  = Fulfilled (Doc.result_of (Doc.listing [Doc.older; Doc.newer]) None)
  ∧ (Post.createdAt Doc.older <? Post.createdAt Doc.newer) = true
  ∧ Doc.newest_first [Doc.older; Doc.newer] = false
  ∧ Doc.newest_first [Doc.newer; Doc.older] = true.
Proof. rewrite list_posts_run. by vm_compute. Qed.

#[local] Instance desc_id_total : Total desc_id.
Proof.
  intros p q. unfold desc_id.
  destruct (String.leb_total (Post.id q) (Post.id p)) as [H|H]; rewrite H;
    [by left|by right].
Qed.

Lemma Sorted_take {A} (R : relation A) n l : Sorted R l → Sorted R (take n l).
Proof.
  intros H. revert n. induction H as [|x l Hl IH Hx]; intros [|n]; simpl; try constructor.
  - apply IH.
  - destruct Hx as [|y l' Hxy]; destruct n; simpl; by constructor.
Qed.

(** What the listing is in general: rows of the table, sorted by
    identifier with the greatest first, at most as many as the limit. *)
Lemma list_posts_sorted_by_identifier limit st :
  outage st (length (calls st)) = None →
  ∃ posts,
    (list_posts limit st).1 = Fulfilled (Doc.result_of (Doc.listing posts) None)
    ∧ Sorted desc_id posts
    ∧ posts ⊆ rows st
    ∧ (length posts ≤ Z.to_nat (truncate limit))%nat.
Proof.
  intros H. rewrite list_posts_run, H. eexists. split; [done|]. split; [|split].
  - apply Sorted_take, Sorted_merge_sort, _.
  - intros p Hp%elem_of_take. destruct Hp as (i & Hp & _).
    apply list_elem_of_lookup_2 in Hp. by rewrite merge_sort_Permutation in Hp.
  - rewrite length_take. lia.
Qed.







(** ** Dispatch *)

(** An invocation of a registered tool: rejected by the schema, or the
    handler run on the parsed arguments. *)
Lemma invoke_run tools toolName raw st t :
  find (fun t => String.eqb (name t) toolName) tools = Some t →
  invoke tools toolName raw st
  = match inputSchema t raw with
    | inl i => (Fulfilled (InvalidArguments i), st)
    | inr args =>
        match handler t args st with
        | (Fulfilled r, st') => (Fulfilled (Returned r), st')
        | (Rejected e, st') =>
            (Fulfilled
               (Returned (Doc.result_of (Doc.failure (errorMessage_of e)) (Some true))),
             st')
        end
    end.
Proof.
  intros H. unfold invoke. rewrite H.
  destruct (inputSchema t raw) as [i|args]; [done|].
  unfold try_catch, mbind, promise_bind, await.
  by destruct (handler t args st) as [[r|e] st'].
Qed.

Lemma find_registered t :
  In t registry → find (fun t' => String.eqb (name t') (name t)) registry = Some t.
Proof.
  unfold registry, arithmetic_tools, post_tools. simpl.
  intros [<-|[<-|[<-|[<-|[<-|[<-|[<-|[<-|[]]]]]]]]]; reflexivity.
Qed.

(** Every handler settles normally, with a result of one text block; a
    store call the environment failed during the run is reported in it. *)
Lemma handler_settles t (args : Args t) st :
  In t registry →
  ∃ r st',
    handler t args st = (Fulfilled r, st')
    ∧ content r = [ {| type := "text"; text := payload r |} ]
    ∧ ∀ i e, (length (calls st) ≤ i < length (calls st'))%nat →
             outage st i = Some e →
             r = Doc.result_of (Doc.failure (errorMessage_of e)) (Some true).
Proof.
  unfold registry, arithmetic_tools, post_tools. simpl.
  intros [<-|[<-|[<-|[<-|[<-|[<-|[<-|[<-|[]]]]]]]]]; simpl in *.
  - destruct args as [a b]. eexists _, _. split; [done|]. split; [done|]. lia.
  - destruct args as [a b]. eexists _, _. split; [done|]. split; [done|]. lia.
  - destruct args as [a b]. eexists _, _. split; [done|]. split; [done|]. lia.
  - destruct args as [a b]. eexists _, _. split; [done|].
    split; [unfold divide; by destruct (b =? 0)%float|]. lia.
  - rewrite list_posts_run.
    destruct (outage st (length (calls st))) as [e|] eqn:Hup;
      (eexists _, _; split; [done|]; split; [done|]);
      intros i e' Hi He'; rewrite length_logged in Hi;
      replace i with (length (calls st)) in He' by lia; congruence.
  - rewrite get_post_run. eexists _, _. split; [done|].
    split; [destruct (outage st (length (calls st))); [done|];
            by destruct (find (has_id args) (rows st))|].
    intros i e' Hi He'. rewrite length_logged in Hi.
    replace i with (length (calls st)) in He' by lia. by rewrite He'.
  - destruct args as [title content]. rewrite create_post_run. cbn zeta.
    destruct (outage st (length (calls st))) as [e|] eqn:Hup;
      [|destruct (existsb _ (rows st))];
      (eexists _, _; split; [done|]; split; [done|]);
      intros i e' Hi He'; cbn [calls with_rows] in Hi; rewrite length_logged in Hi;
      replace i with (length (calls st)) in He' by lia; congruence.
  - rewrite delete_post_run. cbn zeta.
    destruct (outage st (length (calls st))) as [e|] eqn:Hup;
      [|destruct (find _ (rows st)) as [p|];
        [destruct (outage st (S (length (calls st)))) as [e|] eqn:Hup2|]];
      (eexists _, _; split; [done|]; split; [done|]);
      intros i e' Hi He'; cbn [calls with_rows] in Hi; rewrite ?length_logged in Hi;
      try (replace i with (length (calls st)) in He' by lia; congruence).
    + assert (i = length (calls st) ∨ i = S (length (calls st))) as [->| ->] by lia;
        congruence.
    + assert (i = length (calls st) ∨ i = S (length (calls st))) as [->| ->] by lia;
        congruence.
Qed.

(** C1: for every registered tool and every argument set that conforms to
    its input schema, [invoke] returns a tool result: the handler itself
    settles normally, so that no fault passes the dispatch boundary. A call
    into the store that failed during the invocation is reported as the
    result [{success: false, error: <message of the fault>}] with
    [isError = true]. *)
Theorem invoke_returns_a_result (t : ToolDefinition) (raw : gmap string value)
    (args : Args t) (st : store) :
  In t registry →
  inputSchema t raw = inr args →
  ∃ r st',
    invoke registry (name t) raw st = (Fulfilled (Returned r), st')
    ∧ handler t args st = (Fulfilled r, st')
    ∧ ∀ i e, (length (calls st) ≤ i < length (calls st'))%nat →
             outage st i = Some e →
             r = Doc.result_of (Doc.failure (errorMessage_of e)) (Some true)
               ∧ isError r = Some true.
Proof.
  intros Hin Hargs.
  destruct (handler_settles t args st Hin) as (r & st' & Hrun & _ & Hfault).
  exists r, st'. rewrite (invoke_run _ _ _ _ t (find_registered t Hin)), Hargs, Hrun.
  split; [done|]. split; [done|].
  intros i e Hi He. by rewrite (Hfault i e Hi He).
Qed.

Lemma invoke_while_store_is_down :
  ∃ r st',
    invoke registry "list_posts" ∅ Doc.down = (Fulfilled (Returned r), st')
    ∧ handler list_posts_tool 10%float Doc.down = (Fulfilled r, st')
    ∧ ∀ i e, (length (calls Doc.down) ≤ i < length (calls st'))%nat →
             outage Doc.down i = Some e →
             r = Doc.result_of (Doc.failure (errorMessage_of e)) (Some true)
               ∧ isError r = Some true.
Proof.
  apply (invoke_returns_a_result list_posts_tool ∅ 10%float Doc.down);
    [simpl; tauto | reflexivity].
Defined.



(** C7: the limit of the list tool is an optional integer with default 10,
    minimum 1 and maximum 100. Without a limit the handler runs with 10; an
    integer limit within the bounds reaches the handler as it is; a limit
    below 1, above 100 (101, say) or not an integer is rejected as an
    invalid argument, and the store is left as it was: no call was made. *)
Theorem limit_is_validated (raw : gmap string value) (st : store) :
  (raw !! "limit" = None →
     invoke registry "list_posts" raw st = Doc.dispatched (list_posts 10 st))
  ∧ (∀ x, raw !! "limit" = Some (VNum x) →
          (x <? 1)%float = true ∨ (100 <? x)%float = true
          ∨ Number_isInteger x = false →
          ∃ i, invoke registry "list_posts" raw st = (Fulfilled (InvalidArguments i), st)
               ∧ Zod.path i = "limit")
  ∧ (∀ x, raw !! "limit" = Some (VNum x) →
          Number_isInteger x = true →
          (x <? 1)%float = false → (100 <? x)%float = false →
          invoke registry "list_posts" raw st = Doc.dispatched (list_posts x st)).
Proof.
  assert (Hfind : find (fun t => String.eqb (name t) "list_posts") registry
                  = Some list_posts_tool) by reflexivity.
  rewrite (invoke_run _ _ _ _ _ Hfind).
  cbn [inputSchema list_posts_tool handler]. unfold Zod.field.
  split; [|split].
  - by intros ->.
  - intros x -> Hout. cbn [option.default from_option id].
    unfold limit_schema, Zod.default, Zod.optional, Zod.max, Zod.min, Zod.int,
      Zod.refine, Zod.z_number. cbn beta iota.
    destruct (is_nan x); cbn beta iota; [eexists; split; reflexivity|].
    destruct (Number_isInteger x); cbn beta iota; [|eexists; split; reflexivity].
    destruct (x <? 1)%float; cbn beta iota; [eexists; split; reflexivity|].
    destruct (100 <? x)%float; cbn beta iota; [eexists; split; reflexivity|].
    by destruct Hout as [?|[?|?]].
  - intros x -> Hint Hmin Hmax. cbn [option.default from_option id].
    unfold limit_schema, Zod.default, Zod.optional, Zod.max, Zod.min, Zod.int,
      Zod.refine, Zod.z_number. cbn beta iota.
    destruct (is_nan x) eqn:Hnan; cbn beta iota.
    + exfalso. unfold Number_isInteger, Prim2SF in Hint. by rewrite Hnan in Hint.
    + by rewrite Hint, Hmin, Hmax.
Qed.

Lemma limit_101_is_rejected :
  ∃ i, invoke registry "list_posts" {[ "limit" := VNum 101 ]} Doc.two_posts
       = (Fulfilled (InvalidArguments i), Doc.two_posts)
       ∧ Zod.path i = "limit".
Proof.
  refine (proj1 (proj2 (limit_is_validated {[ "limit" := VNum 101 ]} Doc.two_posts))
            101%float _ _).
  - reflexivity.
  - right. left. reflexivity.
Defined.

(** ** The error flag and the payload *)

(** C10: for every tool and every input, the returned result has
    [isError = true] exactly when its payload includes the key [success]
    with the value [false]; a result that is not an error leaves [isError]
    out, and its payload carries the key [success] with the value [true]. *)
Theorem error_flag_matches_payload (t : ToolDefinition) (args : Args t) (st : store) :
  In t registry →
  ∃ r st', handler t args st = (Fulfilled r, st') ∧ Scan.agrees r.
Proof.
  unfold registry, arithmetic_tools, post_tools. cbn [app In].
  intros [<-|[<-|[<-|[<-|[<-|[<-|[<-|[<-|[]]]]]]]]];
    cbn [handler Args add_tool subtract_tool multiply_tool divide_tool
         list_posts_tool get_post_tool create_post_tool delete_post_tool] in *.
  - destruct args as [a b].
    exists (Doc.result_of (Doc.operation "add" (VNum (a + b)) (VNum a) (VNum b)) None), st.
    split; [reflexivity|apply agrees_operation].
  - destruct args as [a b].
    exists (Doc.result_of (Doc.operation "subtract" (VNum (a - b)) (VNum a) (VNum b)) None), st.
    split; [reflexivity|apply agrees_operation].
  - destruct args as [a b].
    exists (Doc.result_of (Doc.operation "multiply" (VNum (a * b)) (VNum a) (VNum b)) None), st.
    split; [reflexivity|apply agrees_operation].
  - destruct args as [a b]. exists (divide a b), st. split; [reflexivity|].
    unfold divide. destruct (b =? 0)%float.
    + apply (agrees_failure "Division by zero is not allowed").
    + apply (agrees_operation "divide" (a / b)%float a b).
  - rewrite list_posts_run. destruct (outage st (length (calls st))) as [e|].
    + eexists _, _. split; [reflexivity|]. apply agrees_failure.
    + eexists _, _. split; [reflexivity|].
      apply agrees_success; [apply listing_clear|apply listing_true].
  - rewrite get_post_run. eexists _, _. split; [reflexivity|].
    destruct (outage st (length (calls st))) as [e|]; [apply agrees_failure|].
    destruct (find (has_id args) (rows st)) as [p|]; [|apply agrees_failure].
    apply agrees_success; [apply found_clear|apply found_true].
  - destruct args as [title content]. rewrite create_post_run. cbn zeta.
    destruct (outage st (length (calls st))) as [e|].
    + eexists _, _. split; [reflexivity|]. apply agrees_failure.
    + destruct (existsb _ (rows st)).
      * eexists _, _. split; [reflexivity|]. apply agrees_failure.
      * eexists _, _. split; [reflexivity|].
        apply agrees_success; [apply found_clear|apply found_true].
  - rewrite delete_post_run. cbn zeta.
    destruct (outage st (length (calls st))) as [e|].
    + eexists _, _. split; [reflexivity|]. apply agrees_failure.
    + destruct (find (has_id args) (rows st)) as [p|].
      * destruct (outage st (S (length (calls st)))) as [e|].
        -- eexists _, _. split; [reflexivity|]. apply agrees_failure.
        -- eexists _, _. split; [reflexivity|].
           apply agrees_success; [apply deleted_clear|apply deleted_true].
      * eexists _, _. split; [reflexivity|]. apply agrees_failure.
Qed.

Lemma flag_of_a_found_post :
  ∃ r st',
    handler get_post_tool (Post.id Doc.newer) Doc.two_posts = (Fulfilled r, st')
    ∧ Scan.agrees r.
Proof.
  apply (error_flag_matches_payload get_post_tool (Post.id Doc.newer) Doc.two_posts).
  cbn [registry arithmetic_tools post_tools app In]. tauto.
Defined.

(** * Further properties of the tools *)

(** ** Arithmetic *)



(** [b === 0] holds of the two zeros and of nothing else. *)
Lemma eqb_zero_inv (b : float) :
  (b =? 0)%float = true ↔ b = 0%float ∨ b = (-0)%float.
Proof.
  split.
  - rewrite FloatAxioms.eqb_spec. intros H.
    rewrite <- (SF2Prim_Prim2SF b).
    destruct (Prim2SF b) as [[|]| | |]; try done.
    + by right.
    + by left.
    + by destruct s.
    + by destruct s.
  - by intros [-> | ->].
Qed.

(** X3: the divide tool returns an error result exactly when the divisor
    is one of the two zeros, [0] or [-0]; a divisor that is not a number is
    not refused. *)
Theorem divide_refuses_both_zeros (a b : float) :
  (isError (divide a b) = Some true ↔ b = 0%float ∨ b = (-0)%float)
  ∧ (is_nan b = true → isError (divide a b) = None).
Proof.
  split.
  - rewrite <- eqb_zero_inv. unfold divide. by destruct (b =? 0)%float.
  - intros Hnan. unfold divide.
    destruct (b =? 0)%float eqn:E; [|done].
    apply eqb_zero_inv in E as [-> | ->]; by vm_compute in Hnan.
Qed.

(** ** Input schemas *)

(** [z.number()] on one key: a number that is not NaN, and nothing else. *)
Lemma z_number_field key raw x :
  Zod.field key Zod.z_number raw = inr x
  ↔ raw !! key = Some (VNum x) ∧ is_nan x = false.
Proof.
  unfold Zod.field, Zod.z_number.
  destruct (raw !! key) as [[| | |y| | |]|]; cbn [option.default from_option id];
    try (split; [discriminate|intros [[=] _]]).
  destruct (is_nan y) eqn:E.
  - split; [discriminate|]. intros [[= ->] H]. congruence.
  - split; [by intros [= ->]|]. by intros [[= ->] _].
Qed.

(** X4: the input schema of the arithmetic tools accepts an argument set
    exactly when [a] and [b] are both numbers other than NaN, and hands
    them to the handler as they are; whatever else the set holds is
    ignored. A rejection is an [invalid_type] issue, on [a] first: an issue
    on [b] means that [a] was a number. *)
Theorem two_numbers_accepts (raw : gmap string value) :
  (∀ a b, two_numbers raw = inr (a, b)
          ↔ raw !! "a" = Some (VNum a) ∧ raw !! "b" = Some (VNum b)
            ∧ is_nan a = false ∧ is_nan b = false)
  ∧ (∀ i, two_numbers raw = inl i →
          Zod.code i = Zod.invalid_type
          ∧ (Zod.path i = "a"
             ∨ Zod.path i = "b" ∧ ∃ a, raw !! "a" = Some (VNum a))).
Proof.
  unfold two_numbers, Zod.and_then. split.
  - intros a b. split.
    + destruct (Zod.field "a" Zod.z_number raw) as [i|a'] eqn:Ea; [discriminate|].
      destruct (Zod.field "b" Zod.z_number raw) as [i|b'] eqn:Eb; [discriminate|].
      intros [= -> ->]. apply z_number_field in Ea, Eb. tauto.
    + intros (Ha & Hb & Na & Nb).
      rewrite (proj2 (z_number_field "a" raw a) (conj Ha Na)).
      by rewrite (proj2 (z_number_field "b" raw b) (conj Hb Nb)).
  - intros i.
    destruct (Zod.field "a" Zod.z_number raw) as [ia|a'] eqn:Ea.
    { intros [= <-]. revert Ea. unfold Zod.field, Zod.z_number.
      destruct (option.default _ _) as [| | |y| | |]; try (intros [= <-]; by auto).
      destruct (is_nan y); [|done]. intros [= <-]; by auto. }
    apply z_number_field in Ea as [Ea _].
    destruct (Zod.field "b" Zod.z_number raw) as [ib|b'] eqn:Eb; [|done].
    intros [= <-]. revert Eb. unfold Zod.field, Zod.z_number.
    destruct (option.default _ (raw !! "b")) as [| | |y| | |];
      try (intros [= <-]; by eauto).
    destruct (is_nan y); [|done]. intros [= <-]; by eauto.
Qed.

(** *** The limit of the listing *)

Lemma digits2_pos_bounds (m : positive) :
  2 ^ (Z.pos (digits2_pos m) - 1) ≤ Z.pos m < 2 ^ Z.pos (digits2_pos m).
Proof.
  induction m as [m IH|m IH|]; cbn [digits2_pos]; [| |by vm_compute].
  all: replace (Z.pos (Pos.succ (digits2_pos m)) - 1)
         with (Z.succ (Z.pos (digits2_pos m) - 1)) by lia.
  all: replace (Z.pos (Pos.succ (digits2_pos m)))
         with (Z.succ (Z.pos (digits2_pos m))) by lia.
  all: rewrite !Z.pow_succ_r by lia; lia.
Qed.

(** A mantissa and an exponent of a number: the mantissa is below
    [2 ^ 53], and it is [2 ^ 52] at least when the exponent is above the
    least one. *)
Lemma finite_mantissa x s m e :
  Prim2SF x = S754_finite s m e →
  Z.pos m < 9007199254740992 ∧ (-1074 < e → 4503599627370496 ≤ Z.pos m).
Proof.
  intros Hx. assert (Hv := Prim2SF_valid x). rewrite Hx in Hv.
  unfold valid_binary, SpecFloat.valid_binary, bounded, canonical_mantissa, fexp in Hv.
  apply andb_true_iff in Hv as [Hc _]. apply Z.eqb_eq in Hc.
  change prec with 53 in Hc. change (SpecFloat.emin 53 emax) with (-1074) in Hc.
  destruct (digits2_pos_bounds m) as [Hlo Hhi].
  assert (H53 : 2 ^ 53 = 9007199254740992) by (vm_compute; reflexivity).
  assert (H52 : 2 ^ 52 = 4503599627370496) by (vm_compute; reflexivity).
  rewrite <- H53, <- H52. clear H53 H52.
  split.
  - assert (Z.pos (digits2_pos m) ≤ 53) by lia.
    eapply Z.lt_le_trans; [exact Hhi|]. apply Z.pow_le_mono_r; lia.
  - intros He. assert (Z.pos (digits2_pos m) = 53) as Hd by lia.
    by rewrite Hd in Hlo.
Qed.

Lemma compare_cont_Eq a b : PosDef.Pos.compare_cont Eq a b = Pos.compare a b.
Proof. reflexivity. Qed.

(** An integer that is neither below 1 nor above 100, as the comparisons
    of numbers see it, has an integer part from 1 to 100. *)
Lemma accepted_limit_bounds (x : float) :
  Number_isInteger x = true → (x <? 1)%float = false → (100 <? x)%float = false →
  1 ≤ truncate x ≤ 100.
Proof.
  unfold Number_isInteger, truncate.
  rewrite !FloatAxioms.ltb_spec.
  change (Prim2SF 1) with (S754_finite false 4503599627370496 (-52)).
  change (Prim2SF 100) with (S754_finite false 7036874417766400 (-46)).
  destruct (Prim2SF x) as [s|s| |s m e] eqn:Hx.
  - intros _ H. unfold SFltb, SFcompare in H. destruct s; discriminate H.
  - intros H; discriminate H.
  - intros H; discriminate H.
  - intros _ Hmin Hmax. destruct (finite_mantissa x s m e Hx) as [Hhi Hlo].
    unfold SFltb, SFcompare in Hmin, Hmax.
    destruct s; [discriminate Hmin|].
    rewrite compare_cont_Eq in Hmin, Hmax. clear Hx.
    assert (Hbounds : -52 ≤ e ≤ -46 ∧ (e = -46 → Z.pos m ≤ 7036874417766400)).
    { clear Hhi Hlo. revert Hmin Hmax.
      destruct (Z.compare_spec e (-52)) as [->|?|?]; [|intros H'; discriminate H'|].
      - intros _ _. split; [split|]; [done|done|intros H'; discriminate H'].
      - intros _. destruct (Z.compare_spec (-46) e) as [<-|?|?].
        + change ((match (7036874417766400 ?= m)%positive with Lt => true | _ => false end) = false
                  → -52 ≤ -46 ≤ -46 ∧ (-46 = -46 → Z.pos m ≤ 7036874417766400))
            with ((7036874417766400 <? m)%positive = false
                  → -52 ≤ -46 ≤ -46 ∧ (-46 = -46 → Z.pos m ≤ 7036874417766400)).
          intros Hle%Pos.ltb_ge. split; [done|]. intros _. exact Hle.
        + intros H'; discriminate H'.
        + intros _. split; lia. }
    clear Hmin Hmax. destruct Hbounds as [He Hm]. specialize (Hlo ltac:(lia)).
    destruct (Z.leb_spec 0 e) as [?|_]; [lia|].
    assert (Hcase : e = -52 ∨ e = -51 ∨ e = -50 ∨ e = -49 ∨ e = -48 ∨ e = -47 ∨ e = -46) by lia.
    destruct Hcase as [->|[->|[->|[->|[->|[->| ->]]]]]];
      match goal with |- context [2 ^ ?k] =>
        let v := eval vm_compute in (2 ^ k) in change (2 ^ k) with v end.
    all: try specialize (Hm eq_refl).
    all: split; [apply Z.div_le_lower_bound; lia|apply Z.lt_succ_r, Z.div_lt_upper_bound; lia].
Qed.

(** What the schema of the limit lets through. *)
Lemma limit_field_bounds (raw : gmap string value) (limit : float) :
  Zod.field "limit" limit_schema raw = inr limit →
  1 ≤ truncate limit ≤ 100 ∧ Number_isInteger limit = true.
Proof.
  unfold Zod.field, limit_schema, Zod.default, Zod.optional, Zod.max,
    Zod.min, Zod.int, Zod.refine, Zod.z_number.
  destruct (option.default VUndefined (raw !! "limit")) as [| | |x| | |];
    try discriminate.
  - intros [= <-]. by vm_compute.
  - destruct (is_nan x); [discriminate|].
    destruct (Number_isInteger x) eqn:Hint; [|discriminate].
    destruct (x <? 1)%float eqn:Hmin; [discriminate|].
    destruct (100 <? x)%float eqn:Hmax; [discriminate|].
    intros [= <-]. split; [|done]. by apply accepted_limit_bounds.
Qed.

(** X5: a limit that the schema of the list tool lets through (the
    argument given, or 10 when there is none) is an integer from 1 to 100,
    so the query of the listing never returns more than 100 posts. *)
Theorem accepted_limit_is_between_1_and_100 (raw : gmap string value) (limit : float) :
  Zod.field "limit" limit_schema raw = inr limit →
  1 ≤ truncate limit ≤ 100
  ∧ Number_isInteger limit = true
  ∧ ∀ st posts st', findMany_desc_id limit st = (Fulfilled posts, st') →
                     (length posts ≤ 100)%nat.
Proof.
  intros [Hlimit Hint]%limit_field_bounds.
  split; [done|]. split; [done|].
  intros st posts st'. unfold findMany_desc_id, call.
  destruct (outage st (length (calls st))); [discriminate|].
  intros [= <- _]. rewrite length_take. lia.
Qed.

(** The limit 25. *)
Lemma limit_25_is_between_1_and_100 :
  1 ≤ truncate 25 ≤ 100
  ∧ Number_isInteger 25 = true
  ∧ ∀ st posts st', findMany_desc_id 25 st = (Fulfilled posts, st') →
                     (length posts ≤ 100)%nat.
Proof.
  exact (accepted_limit_is_between_1_and_100 {[ "limit" := VNum 25 ]} 25 eq_refl).
Defined.

(** *** Identifiers, titles and contents *)








(** ** The options of the handler *)

(** X8: the Redis URL of the handler is the one of the configuration
    when it gives one, and the one of [process.env.REDIS_URL] otherwise;
    the handler runs without Redis only when both are missing. *)
Theorem redisUrl_falls_back_to_the_environment (config : option Config.t)
    (process_env : Env.t) :
  let resolved := Options.redisUrl (Handler.options config process_env) in
  (∀ url, config ≫= Config.redisUrl = Some url → resolved = Some url)
  ∧ (config ≫= Config.redisUrl = None → resolved = Env.REDIS_URL process_env)
  ∧ (resolved = None
     ↔ config ≫= Config.redisUrl = None ∧ Env.REDIS_URL process_env = None).
Proof.
  cbn [Handler.options Options.redisUrl].
  destruct (config ≫= Config.redisUrl) as [url|].
  - split; [by intros ? [= ->]|]. split; [done|]. split; [done|by intros [[=] _]].
  - split; [done|]. split; [done|]. tauto.
Qed.

(** X9: the route registers the arithmetic tools under the base path
    [/api] with a maximal duration of 60 seconds; its verbose logging is
    decided by the validated environment of the application alone, and its
    Redis URL falls back to [process.env.REDIS_URL]. Where the validated
    environment agrees with [process.env], the route builds the handler
    that [createMcpHandler()] builds without a configuration. *)
Theorem route_options_come_from_the_validated_environment (env process_env : Env.t) :
  Handler.handlerOptions (Handler.route env process_env)
  = {| Options.redisUrl :=
         match Env.REDIS_URL env with
         | Some url => Some url
         | None => Env.REDIS_URL process_env
         end;
       Options.basePath := "/api";
       Options.maxDuration := 60;
       Options.verboseLogs := Handler.is_development env |}
  ∧ Handler.tools (Handler.route env process_env) = arithmetic_tools
  ∧ (Env.REDIS_URL env = Env.REDIS_URL process_env →
     Handler.is_development env = Handler.is_development process_env →
     Handler.route env process_env = Handler.createMcpHandler None process_env).
Proof.
  split; [done|]. split; [done|]. intros Hurl Hdev.
  unfold Handler.route, Handler.createMcpHandler, Handler.options. f_equal.
  cbn [mbind option_bind Config.redisUrl Config.basePath Config.maxDuration
       Config.verboseLogs Handler.nullish].
  rewrite Hurl, Hdev. by destruct (Env.REDIS_URL process_env).
Qed.

(** ** The table behind the post tools *)

Lemma ascii_compare_N a b : Ascii.compare a b = N.compare (N_of_ascii a) (N_of_ascii b).
Proof. reflexivity. Qed.

Lemma ascii_compare_trans a b c :
  Ascii.compare a b = Lt → Ascii.compare b c = Lt → Ascii.compare a c = Lt.
Proof. rewrite !ascii_compare_N, !N.compare_lt_iff. lia. Qed.

Lemma string_compare_trans a b c :
  String.compare a b ≠ Gt → String.compare b c ≠ Gt → String.compare a c ≠ Gt.
Proof.
  revert b c. induction a as [|x a IH]; intros [|y b] [|z c]; simpl; try done.
  destruct (Ascii.compare x y) eqn:Exy; [| |done];
    destruct (Ascii.compare y z) eqn:Eyz; try done.
  - apply Ascii.compare_eq_iff in Exy as ->. rewrite Eyz. apply IH.
  - apply Ascii.compare_eq_iff in Exy as ->. by rewrite Eyz.
  - apply Ascii.compare_eq_iff in Eyz as <-. by rewrite Exy.
  - by rewrite (ascii_compare_trans x y z).
Qed.

#[local] Instance desc_id_trans : Transitive desc_id.
Proof.
  intros p q r. unfold desc_id, String.leb. intros Hpq Hqr.
  pose proof (string_compare_trans (Post.id r) (Post.id q) (Post.id p)) as H.
  destruct (String.compare (Post.id r) (Post.id q)); try done;
    destruct (String.compare (Post.id q) (Post.id p)); try done;
    destruct (String.compare (Post.id r) (Post.id p)); try done; by destruct H.
Qed.

Lemma find_has_id id rows p :
  find (has_id id) rows = Some p → p ∈ rows ∧ Post.id p = id.
Proof.
  intros [Hin Hid]%find_some. split; [by apply list_elem_of_In|].
  by apply String.eqb_eq.
Qed.

Lemma find_unique p rows :
  NoDup (Post.id <$> rows) → p ∈ rows → find (has_id (Post.id p)) rows = Some p.
Proof.
  induction rows as [|q rows IH]; [by intros _ ?%elem_of_nil|].
  rewrite fmap_cons, NoDup_cons. intros [Hq Hnd] Hp. cbn [find]. unfold has_id at 1.
  destruct (String.eqb_spec (Post.id q) (Post.id p)) as [Heq|Hne].
  - apply elem_of_cons in Hp as [->|Hp]; [done|].
    destruct Hq. rewrite Heq. by apply list_elem_of_fmap_2.
  - apply elem_of_cons in Hp as [->|Hp]; [done|]. by apply IH.
Qed.

Lemma fresh_id id rows :
  existsb (has_id id) rows = false ↔ id ∉ Post.id <$> rows.
Proof.
  induction rows as [|q rows IH]; simpl.
  - split; [intros _ ?%elem_of_nil|]; done.
  - rewrite orb_false_iff, IH, not_elem_of_cons. unfold has_id.
    destruct (String.eqb_spec (Post.id q) id) as [Heq|Hne].
    + split; [by intros [? _]|]. intros [Hne _]. by destruct Hne.
    + split; intros [_ ?]; (split; [congruence|done]).
Qed.

Lemma elem_of_remaining id q (rows : list Post.t) :
  q ∈ filter (fun p => negb (has_id id p)) rows ↔ q ∈ rows ∧ Post.id q ≠ id.
Proof.
  rewrite list_elem_of_filter. unfold has_id.
  destruct (String.eqb_spec (Post.id q) id); simpl; tauto.
Qed.

Lemma find_remaining id (rows : list Post.t) :
  find (has_id id) (filter (fun p => negb (has_id id p)) rows) = None.
Proof.
  destruct (find _ _) as [p|] eqn:E; [|done].
  apply find_has_id in E as [[_ Hne]%elem_of_remaining Heq]. done.
Qed.

(** X10: when the store answers, [list_posts] returns a success result
    that lists rows of the table, sorted by identifier with the greatest
    first, as many as the limit allows and the table holds; every row left
    out has an identifier no greater than any row listed; and the table is
    left as it was. *)
Theorem list_posts_lists_the_greatest_identifiers (limit : float) (st : store) :
  outage st (length (calls st)) = None →
  ∃ posts,
    (list_posts limit st).1 = Fulfilled (Doc.result_of (Doc.listing posts) None)
    ∧ Sorted desc_id posts
    ∧ posts ⊆ rows st
    ∧ length posts = (Z.to_nat (truncate limit) `min` length (rows st))%nat
    ∧ (∀ p q, p ∈ posts → q ∈ rows st → q ∉ posts → desc_id p q)
    ∧ rows (list_posts limit st).2 = rows st.
Proof.
  intros Hup. rewrite list_posts_run, Hup. eexists. split; [reflexivity|].
  set (sorted := merge_sort desc_id (rows st)).
  assert (Hperm : sorted ≡ₚ rows st) by apply merge_sort_Permutation.
  assert (Hsorted : Sorted desc_id sorted) by apply Sorted_merge_sort, _.
  split; [by apply Sorted_take|]. split; [|split; [|split; [|done]]].
  - intros p Hp. rewrite <- Hperm. by eapply subseteq_take.
  - by rewrite length_take, Hperm.
  - intros p q Hp Hq Hnot. rewrite <- Hperm in Hq.
    rewrite <- (take_drop (Z.to_nat (truncate limit)) sorted) in Hq, Hsorted.
    apply elem_of_app in Hq as [Hq|Hq]; [done|].
    apply Sorted_StronglySorted in Hsorted; [|apply _].
    by eapply StronglySorted_app_1_elem_of.
Qed.

(** The limit 1 on the table of two posts. *)
Lemma list_one_of_two_posts :
  ∃ posts,
    (list_posts 1 Doc.two_posts).1
    = Fulfilled (Doc.result_of (Doc.listing posts) None)
    ∧ Sorted desc_id posts
    ∧ posts ⊆ rows Doc.two_posts
    ∧ length posts = (Z.to_nat (truncate 1) `min` length (rows Doc.two_posts))%nat
    ∧ (∀ p q, p ∈ posts → q ∈ rows Doc.two_posts → q ∉ posts → desc_id p q)
    ∧ rows (list_posts 1 Doc.two_posts).2 = rows Doc.two_posts.
Proof. exact (list_posts_lists_the_greatest_identifiers 1 Doc.two_posts eq_refl). Defined.

(** X11: when the store answers and the limit is not below the number
    of rows, [list_posts] lists every row of the table, each once. *)
Theorem list_posts_lists_every_post (limit : float) (st : store) :
  outage st (length (calls st)) = None →
  (length (rows st) ≤ Z.to_nat (truncate limit))%nat →
  ∃ posts,
    (list_posts limit st).1 = Fulfilled (Doc.result_of (Doc.listing posts) None)
    ∧ posts ≡ₚ rows st.
Proof.
  intros Hup Hall. rewrite list_posts_run, Hup. eexists. split; [reflexivity|].
  rewrite take_ge; [apply merge_sort_Permutation|].
  by rewrite merge_sort_Permutation.
Qed.

(** The limit 10 on the table of two posts. *)
Lemma list_ten_of_two_posts :
  ∃ posts,
    (list_posts 10 Doc.two_posts).1
    = Fulfilled (Doc.result_of (Doc.listing posts) None)
    ∧ posts ≡ₚ rows Doc.two_posts.
Proof.
  apply (list_posts_lists_every_post 10 Doc.two_posts); [reflexivity|].
  vm_compute. lia.
Defined.

(** X12: on a table whose identifiers are distinct, and with the store
    answering, [get_post] with the identifier of a stored post returns a
    success result with that very post, and leaves the table as it was. *)
Theorem get_post_returns_the_stored_post (p : Post.t) (st : store) :
  outage st (length (calls st)) = None →
  NoDup (Post.id <$> rows st) →
  p ∈ rows st →
  (get_post (Post.id p) st).1 = Fulfilled (Doc.result_of (Doc.found p) None)
  ∧ rows (get_post (Post.id p) st).2 = rows st.
Proof.
  intros Hup Hnd Hp. rewrite get_post_run, Hup, (find_unique p _ Hnd Hp). done.
Qed.

(** The newer of the two posts. *)
Lemma get_newer_of_two_posts :
  (get_post (Post.id Doc.newer) Doc.two_posts).1
  = Fulfilled (Doc.result_of (Doc.found Doc.newer) None)
  ∧ rows (get_post (Post.id Doc.newer) Doc.two_posts).2 = rows Doc.two_posts.
Proof.
  apply (get_post_returns_the_stored_post Doc.newer Doc.two_posts); [reflexivity| |].
  - cbn. apply NoDup_cons. split; [|apply NoDup_singleton].
    intros [=]%list_elem_of_singleton.
  - cbn. apply elem_of_cons. right. apply elem_of_cons. by left.
Defined.

(** X13: when the store answers and holds a post with the identifier,
    [delete_post] returns a success result that echoes the post it found;
    afterwards the table holds exactly the rows with another identifier,
    and [get_post] and a second [delete_post] with the identifier report
    that the post is not found. *)
Theorem delete_post_removes_the_post (id : string) (p : Post.t) (st : store) :
  let n := length (calls st) in
  outage st n = None → outage st (S n) = None → outage st (S (S n)) = None →
  find (has_id id) (rows st) = Some p →
  let st' := (delete_post id st).2 in
  let not_found :=
    Doc.result_of (Doc.failure ("Post with ID " +:+ id +:+ " not found")) (Some true) in
  (delete_post id st).1 = Fulfilled (Doc.result_of (Doc.deleted id p) None)
  ∧ p ∈ rows st ∧ Post.id p = id
  ∧ (∀ q, q ∈ rows st' ↔ q ∈ rows st ∧ Post.id q ≠ id)
  ∧ (get_post id st').1 = Fulfilled not_found
  ∧ (delete_post id st').1 = Fulfilled not_found.
Proof.
  intros n H0 H1 H2 Hfind st' not_found. subst st'.
  rewrite get_post_run, (delete_post_run id (delete_post id st).2), delete_post_run.
  cbn zeta. fold n. rewrite H0, Hfind, H1.
  cbn [fst snd calls rows with_rows logged outage].
  rewrite !length_app. cbn [length].
  replace (length (calls st) + 1 + 1)%nat with (S (S n)) by (unfold n; lia).
  rewrite H2, find_remaining.
  destruct (find_has_id _ _ _ Hfind) as [Hin Hid].
  split; [done|]. split; [done|]. split; [done|].
  split; [intros q; apply elem_of_remaining|]. done.
Qed.

(** Deleting the older of the two posts. *)
Lemma delete_older_of_two_posts :
  let id := Post.id Doc.older in
  let st' := (delete_post id Doc.two_posts).2 in
  let not_found :=
    Doc.result_of (Doc.failure ("Post with ID " +:+ id +:+ " not found")) (Some true) in
  (delete_post id Doc.two_posts).1
  = Fulfilled (Doc.result_of (Doc.deleted id Doc.older) None)
  ∧ Doc.older ∈ rows Doc.two_posts ∧ Post.id Doc.older = id
  ∧ (∀ q, q ∈ rows st' ↔ q ∈ rows Doc.two_posts ∧ Post.id q ≠ id)
  ∧ (get_post id st').1 = Fulfilled not_found
  ∧ (delete_post id st').1 = Fulfilled not_found.
Proof.
  exact (delete_post_removes_the_post (Post.id Doc.older) Doc.older Doc.two_posts
           eq_refl eq_refl eq_refl eq_refl).
Defined.

(** X14: when the lookup of [delete_post] finds the post and the
    deletion that follows fails, the tool returns an error result with the
    message of the fault, after two calls into the store, and the post is
    still in the table. *)
Theorem delete_post_keeps_the_post_when_the_deletion_fails (id : string) (p : Post.t)
    (e : thrown) (st : store) :
  let n := length (calls st) in
  outage st n = None →
  find (has_id id) (rows st) = Some p →
  outage st (S n) = Some e →
  (delete_post id st).1
  = Fulfilled (Doc.result_of (Doc.failure (errorMessage_of e)) (Some true))
  ∧ rows (delete_post id st).2 = rows st
  ∧ calls (delete_post id st).2 = calls st ++ [FindFirst id; Delete id].
Proof.
  intros n H0 Hfind H1. rewrite delete_post_run. cbn zeta. fold n.
  rewrite H0, Hfind, H1. cbn [fst snd calls rows logged].
  by rewrite <- app_assoc.
Qed.

(** The second call into the store times out. *)
Lemma delete_older_while_deletion_times_out :
  let st := Fault.failing 1 Fault.timed_out Doc.two_posts in
  (delete_post (Post.id Doc.older) st).1
  = Fulfilled (Doc.result_of
                 (Doc.failure "Connection terminated due to connection timeout")
                 (Some true))
  ∧ rows (delete_post (Post.id Doc.older) st).2 = rows st
  ∧ calls (delete_post (Post.id Doc.older) st).2
    = calls st ++ [FindFirst (Post.id Doc.older); Delete (Post.id Doc.older)].
Proof.
  exact (delete_post_keeps_the_post_when_the_deletion_fails (Post.id Doc.older)
           Doc.older Fault.timed_out (Fault.failing 1 Fault.timed_out Doc.two_posts)
           eq_refl eq_refl eq_refl).
Defined.

(** X15: [create_post] inserts one row or none. Either it returns a
    success result with the new row, which has the title and the content
    given, the identifier and the creation time the store assigned, and an
    identifier no row had before, and the table is the old one with the new
    row at its end; or it returns an error result and the table is left as
    it was. *)
Theorem create_post_inserts_one_row_or_none (title content : string) (st : store) :
  (∃ row,
      (create_post title content st).1
      = Fulfilled (Doc.result_of (Doc.found row) None)
      ∧ rows (create_post title content st).2 = rows st ++ [row]
      ∧ Post.title row = title ∧ Post.content row = content
      ∧ Post.id row = gen_random_uuid st (length (calls st))
      ∧ Post.createdAt row = now st (length (calls st))
      ∧ Post.id row ∉ Post.id <$> rows st)
  ∨ (∃ message,
        (create_post title content st).1
        = Fulfilled (Doc.result_of (Doc.failure message) (Some true))
        ∧ rows (create_post title content st).2 = rows st).
Proof.
  rewrite create_post_run. cbn zeta.
  destruct (outage st (length (calls st))) as [e|]; [right; by eexists|].
  destruct (existsb _ (rows st)) eqn:Hnew; [right; by eexists|].
  left. eexists. repeat split; try reflexivity. by apply fresh_id.
Qed.

(** X16: when the store answers both calls, the identifier it generates
    is new and the limit exceeds the number of rows there were,
    [list_posts] after [create_post] lists the created post together with
    the rows there were. *)
Theorem create_then_list_shows_the_post (title content : string) (limit : float)
    (st : store) :
  let n := length (calls st) in
  let row := {| Post.id := gen_random_uuid st n; Post.title := title;
                Post.content := content; Post.createdAt := now st n |} in
  outage st n = None →
  outage st (S n) = None →
  existsb (has_id (Post.id row)) (rows st) = false →
  (length (rows st) < Z.to_nat (truncate limit))%nat →
  ∃ posts,
    (list_posts limit (create_post title content st).2).1
    = Fulfilled (Doc.result_of (Doc.listing posts) None)
    ∧ row ∈ posts
    ∧ posts ≡ₚ row :: rows st.
Proof.
  intros n row H0 H1 Hnew Hroom.
  rewrite list_posts_run, create_post_run. cbn zeta. fold n. fold row.
  rewrite H0, Hnew. cbn [fst snd calls rows with_rows logged outage].
  rewrite length_app. cbn [length].
  replace (length (calls st) + 1)%nat with (S n) by (unfold n; lia).
  rewrite H1. eexists. split; [reflexivity|].
  rewrite take_ge.
  - rewrite merge_sort_Permutation, <- Permutation_cons_append.
    split; [apply elem_of_cons; by left|done].
  - rewrite merge_sort_Permutation, length_app. cbn [length]. lia.
Qed.

(** Creating a third post and listing with the limit 10. *)
Lemma create_then_list_two_posts :
  let row := {| Post.id := "3f2504e0-4f89-41d3-9a0c-0305e82c3300"; Post.title := "T";
                Post.content := "C"; Post.createdAt := 1762128000000 |} in
  ∃ posts,
    (list_posts 10 (create_post "T" "C" Doc.two_posts).2).1
    = Fulfilled (Doc.result_of (Doc.listing posts) None)
    ∧ row ∈ posts
    ∧ posts ≡ₚ row :: rows Doc.two_posts.
Proof.
  apply (create_then_list_shows_the_post "T" "C" 10 Doc.two_posts);
    [reflexivity|reflexivity|reflexivity|].
  vm_compute. lia.
Defined.

Lemma includes_refl s : includes s s = true.
Proof.
  pose proof (includes_middle "" s "") as H.
  by rewrite append_nil, append_empty_r in H.
Qed.

(** X17: when the first call into the store fails, each of the four post
    tools returns an error result whose payload is
    [{success: false, error}] with the message of the fault ([error.message]
    of an [Error], [String(error)] of anything else), written in the
    payload as JSON escapes it; the table is left as it was. *)
Theorem store_fault_is_reported (e : thrown) (st : store) (limit : float)
    (id title content : string) :
  outage st (length (calls st)) = Some e →
  let r := Doc.result_of (Doc.failure (errorMessage_of e)) (Some true) in
  ((list_posts limit st).1 = Fulfilled r
   ∧ (get_post id st).1 = Fulfilled r
   ∧ (create_post title content st).1 = Fulfilled r
   ∧ (delete_post id st).1 = Fulfilled r)
  ∧ (rows (list_posts limit st).2 = rows st
     ∧ rows (get_post id st).2 = rows st
     ∧ rows (create_post title content st).2 = rows st
     ∧ rows (delete_post id st).2 = rows st)
  ∧ isError r = Some true
  ∧ includes (payload r) (escape (errorMessage_of e)) = true.
Proof.
  intros Hdown r.
  rewrite list_posts_run, get_post_run, create_post_run, delete_post_run.
  cbn zeta. rewrite Hdown. repeat split.
  apply includes_failure_payload, includes_refl.
Qed.

(** The store that refuses the connection. *)
Lemma connection_refused_is_reported :
  let r := Doc.result_of (Doc.failure "connection refused") (Some true) in
  ((list_posts 10 Doc.down).1 = Fulfilled r
   ∧ (get_post (Post.id Doc.older) Doc.down).1 = Fulfilled r
   ∧ (create_post "T" "C" Doc.down).1 = Fulfilled r
   ∧ (delete_post (Post.id Doc.older) Doc.down).1 = Fulfilled r)
  ∧ (rows (list_posts 10 Doc.down).2 = rows Doc.down
     ∧ rows (get_post (Post.id Doc.older) Doc.down).2 = rows Doc.down
     ∧ rows (create_post "T" "C" Doc.down).2 = rows Doc.down
     ∧ rows (delete_post (Post.id Doc.older) Doc.down).2 = rows Doc.down)
  ∧ isError r = Some true
  ∧ includes (payload r) "connection refused" = true.
Proof.
  exact (store_fault_is_reported (ThrowError "connection refused") Doc.down 10
           (Post.id Doc.older) "T" "C" eq_refl).
Defined.

(** X18: the identifiers of the table stay distinct: if no two rows
    share an identifier before a post tool runs, none do after it,
    whichever tool it is and whatever it is given. *)
Theorem identifiers_stay_unique (st : store) (limit : float) (id title content : string) :
  NoDup (Post.id <$> rows st) →
  NoDup (Post.id <$> rows (list_posts limit st).2)
  ∧ NoDup (Post.id <$> rows (get_post id st).2)
  ∧ NoDup (Post.id <$> rows (create_post title content st).2)
  ∧ NoDup (Post.id <$> rows (delete_post id st).2).
Proof.
  intros Hnd.
  rewrite list_posts_run, get_post_run, create_post_run, delete_post_run. cbn zeta.
  split; [by destruct (outage st (length (calls st)))|]. split; [done|]. split.
  - destruct (outage st (length (calls st))); [done|].
    destruct (existsb _ (rows st)) eqn:Hnew; [done|].
    cbn [snd rows with_rows]. rewrite fmap_app. apply NoDup_app. split; [done|].
    apply fresh_id in Hnew. split; [|apply NoDup_singleton].
    intros x Hx ->%list_elem_of_singleton. done.
  - destruct (outage st (length (calls st))); [done|].
    destruct (find _ (rows st)); [|done].
    destruct (outage st (S (length (calls st)))); [done|].
    cbn [snd rows with_rows]. eapply sublist_NoDup; [exact Hnd|].
    apply fmap_sublist, sublist_filter.
Qed.

(** The table of two posts. *)
Lemma identifiers_of_two_posts_stay_unique :
  NoDup (Post.id <$> rows (list_posts 10 Doc.two_posts).2)
  ∧ NoDup (Post.id <$> rows (get_post (Post.id Doc.older) Doc.two_posts).2)
  ∧ NoDup (Post.id <$> rows (create_post "T" "C" Doc.two_posts).2)
  ∧ NoDup (Post.id <$> rows (delete_post (Post.id Doc.older) Doc.two_posts).2).
Proof.
  apply (identifiers_stay_unique Doc.two_posts 10 (Post.id Doc.older) "T" "C").
  cbn. apply NoDup_cons. split; [|apply NoDup_singleton].
  intros [=]%list_elem_of_singleton.
Defined.

(** ** What the payloads carry *)

Lemma includes_member key rest : includes (Doc.member key rest) (Doc.member key rest) = true.
Proof. apply includes_refl. Qed.

Lemma includes_member_rest key rest p :
  includes rest p = true → includes (Doc.member key rest) p = true.
Proof. intros H. unfold Doc.member. by do 2 apply includes_app_r. Qed.

(** Finds a member among the pieces of a payload. *)
Ltac locate :=
  lazymatch goal with
  | |- includes (Doc.member ?k ?r) (Doc.member ?k ?r) = true => apply includes_member
  | |- includes (Doc.member ?k ?r) ?p = true => apply includes_member_rest; locate
  | |- includes (?a +:+ ?b) ?p = true =>
      first [ apply (includes_app_l a b p); locate
            | apply (includes_app_r a b p); locate ]
  end.



(** Counts up to 100 are written in decimal digits. *)
Lemma count_text (n : nat) :
  (n ≤ 100)%nat →
  json_number (of_uint63 (Uint63.of_Z (Z.of_nat n))) = decimal (Z.of_nat n).
Proof.
  intros Hn.
  do 101 (destruct n as [|n]; [by vm_compute|]). lia.
Qed.

Lemma listing_carries_the_count (posts : list Post.t) :
  (length posts ≤ 100)%nat →
  includes (JSON_stringify (Doc.listing posts))
           (Doc.member "count" (decimal (Z.of_nat (length posts)))) = true.
Proof.
  intros Hn. unfold JSON_stringify, Doc.listing.
  cbn [serialize omap list_omap fmap option_fmap option_map option.default
       from_option bracket join id].
  rewrite (count_text _ Hn).
  repeat match goal with |- context [quote ?k +:+ ": " +:+ ?r] =>
    change (quote k +:+ ": " +:+ r) with (Doc.member k r) end.
  locate.
Qed.

(** X20: with a limit the schema lets through and the store answering,
    [list_posts] lists at most 100 posts, and the payload carries their
    number under the key [count], in decimal digits. *)
Theorem listing_counts_its_posts (raw : gmap string value) (limit : float) (st : store) :
  Zod.field "limit" limit_schema raw = inr limit →
  outage st (length (calls st)) = None →
  ∃ posts,
    (list_posts limit st).1 = Fulfilled (Doc.result_of (Doc.listing posts) None)
    ∧ (length posts ≤ 100)%nat
    ∧ includes (JSON_stringify (Doc.listing posts))
               (Doc.member "count" (decimal (Z.of_nat (length posts)))) = true.
Proof.
  intros [Hlimit _]%limit_field_bounds Hup. rewrite list_posts_run, Hup.
  eexists. split; [reflexivity|].
  assert (Hn : ∀ l : list Post.t,
             (length (take (Z.to_nat (truncate limit)) l) ≤ 100)%nat).
  { intros l. rewrite length_take. lia. }
  split; [apply Hn|]. apply listing_carries_the_count, Hn.
Qed.

(** No limit given, on the table of two posts. *)
Lemma listing_of_two_posts_counts_2 :
  ∃ posts,
    (list_posts 10 Doc.two_posts).1
    = Fulfilled (Doc.result_of (Doc.listing posts) None)
    ∧ (length posts ≤ 100)%nat
    ∧ includes (JSON_stringify (Doc.listing posts))
               (Doc.member "count" (decimal (Z.of_nat (length posts)))) = true.
Proof.
  exact (listing_counts_its_posts ∅ 10 Doc.two_posts eq_refl eq_refl).
Defined.



(** Two sorted arrangements of the same rows are one, where the order
    tells the rows apart. *)
Lemma StronglySorted_unique_on {A} (R : relation A) (l1 l2 : list A) :
  (∀ x y, x ∈ l1 → y ∈ l1 → R x y → R y x → x = y) →
  StronglySorted R l1 → StronglySorted R l2 → l1 ≡ₚ l2 → l1 = l2.
Proof.
  revert l2. induction l1 as [|x l1 IH]; intros l2 Hanti H1 H2 Hperm.
  - by apply Permutation_nil_l in Hperm.
  - destruct l2 as [|y l2]; [by apply Permutation_nil_r in Hperm|].
    apply StronglySorted_inv in H1 as [H1 Hx], H2 as [H2 Hy].
    assert (x = y) as <-.
    { assert (Hyin : y ∈ x :: l1) by (rewrite Hperm; apply elem_of_cons; by left).
      assert (Hxin : x ∈ y :: l2) by (rewrite <- Hperm; apply elem_of_cons; by left).
      apply elem_of_cons in Hyin as [->|Hyin]; [done|].
      apply elem_of_cons in Hxin as [->|Hxin]; [done|].
      rewrite Forall_forall in Hx, Hy.
      apply Hanti; [apply elem_of_cons; by left|apply elem_of_cons; by right|auto|auto]. }
    f_equal. apply IH; [|done|done|by apply Permutation_cons_inv in Hperm].
    intros a b Ha Hb. apply Hanti; apply elem_of_cons; by right.
Qed.

(** Among rows with distinct identifiers the order of the listing tells
    any two apart. *)
Lemma desc_id_antisym (rows : list Post.t) p q :
  NoDup (Post.id <$> rows) → p ∈ rows → q ∈ rows →
  desc_id p q → desc_id q p → p = q.
Proof.
  intros Hnd Hp Hq Hpq Hqp.
  assert (Hid : Post.id p = Post.id q).
  { unfold desc_id in *. apply String.leb_antisym.
    - by destruct (String.leb (Post.id p) (Post.id q)).
    - by destruct (String.leb (Post.id q) (Post.id p)). }
  apply find_unique with (p := p) in Hnd as Hfp; [|done].
  apply find_unique with (p := q) in Hnd as Hfq; [|done].
  rewrite Hid in Hfp. congruence.
Qed.

(** X22: the listing does not depend on the order in which the table
    holds its rows: on two stores that answer and hold the same rows, with
    distinct identifiers, [list_posts] returns the same result. *)
Theorem listing_does_not_depend_on_the_order_of_the_table (limit : float)
    (st st' : store) :
  outage st (length (calls st)) = None →
  outage st' (length (calls st')) = None →
  NoDup (Post.id <$> rows st) →
  rows st ≡ₚ rows st' →
  (list_posts limit st).1 = (list_posts limit st').1.
Proof.
  intros Hup Hup' Hnd Hperm. rewrite !list_posts_run, Hup, Hup'. cbn [fst].
  enough (merge_sort desc_id (rows st) = merge_sort desc_id (rows st')) as -> by done.
  apply StronglySorted_unique_on with (R := desc_id).
  - intros p q Hp Hq. rewrite merge_sort_Permutation in Hp, Hq.
    by apply desc_id_antisym with (rows := rows st).
  - apply Sorted_StronglySorted; [apply _|]. apply Sorted_merge_sort, _.
  - apply Sorted_StronglySorted; [apply _|]. apply Sorted_merge_sort, _.
  - by rewrite !merge_sort_Permutation.
Qed.

(** The two posts, in either order. *)
Lemma listing_of_two_posts_either_way :
  (list_posts 10 Doc.two_posts).1
  = (list_posts 10 (with_rows Doc.two_posts [Doc.newer; Doc.older])).1.
Proof.
  apply (listing_does_not_depend_on_the_order_of_the_table 10 Doc.two_posts
           (with_rows Doc.two_posts [Doc.newer; Doc.older]));
    [reflexivity|reflexivity| |].
  - cbn. apply NoDup_cons. split; [|apply NoDup_singleton].
    intros [=]%list_elem_of_singleton.
  - cbn. apply Permutation_swap.
Defined.
